(** * create_rds.py: provisioning an RDS instance and waiting for it

    A shallow embedding of [src/create_rds.py].  The script is a straight
    line of calls into three libraries (argparse, getpass, boto3); the
    embedding keeps the script's own code as it is written and replaces the
    libraries by:

    - a [world]: what the terminal and the provider answer to each call;
    - a trace of [event]s: what the script did, in order;
    - an [outcome]: a returned value or a raised exception.

    A run is then a value of [M A], a trace with an outcome, and the process
    exit status is read off the outcome of [main]. *)

From stdpp Require Import base option list strings gmap.
From Stdlib Require Import Ascii String ZArith Lia.

#[local] Open Scope string_scope.
#[local] Open Scope list_scope.
#[local] Open Scope Z_scope.

(** ** Python values *)

(** The values the script handles: [None], booleans, integers, strings and
    lists (the only list is the one argparse builds for [nargs="*"]). *)
#[warnings="-register-all"]
Inductive pyval :=
  | PyNone
  | PyBool (b : bool)
  | PyInt (z : Z)
  | PyStr (s : string)
  | PyList (l : list pyval).

(** Python truthiness, as used by [x or y] and [if x:]. *)
Definition truthy (v : pyval) : bool :=
  match v with
  | PyNone => false
  | PyBool b => b
  | PyInt z => negb (z =? 0)
  | PyStr s => negb (String.eqb s "")
  | PyList l => match l with [] => false | _ :: _ => true end
  end.

(** [d.get(k)] on an optional string or integer entry: [None] when absent. *)
Definition opt_str (o : option string) : pyval :=
  match o with Some s => PyStr s | None => PyNone end.

Definition opt_int (o : option Z) : pyval :=
  match o with Some z => PyInt z | None => PyNone end.

(** Keyword arguments and dictionaries with string keys. *)
Abbreviation kwargs := (gmap string pyval).

(** ** Exceptions and outcomes *)

(** The exceptions a library call can raise: the two classes the script
    catches, and any other class ([IndexError], [EOFError], botocore's
    [NoRegionError], ...), which no handler of the script catches. *)
Inductive exn :=
  | ClientError (message : option string)
      (* e.response.get("Error", {}).get("Message") *)
  | WaiterError (text : string)
      (* str(e) *)
  | OtherError (class_name : string).

(** What a library call answers. *)
Inductive reply (A : Type) :=
  | Ok (a : A)
  | Fails (e : exn).
Arguments Ok {A} a.
Arguments Fails {A} e.

(** How a piece of the script ends: it returns, an exception leaves it, or
    [SystemExit] does, which only [sys.exit] and argparse raise and no
    handler of the script catches. *)
Inductive outcome (A : Type) :=
  | Returns (a : A)
  | Raises (e : exn)
  | Exits (code : Z).
Arguments Returns {A} a.
Arguments Raises {A} e.
Arguments Exits {A} code.

(** ** Events *)

(** The messages argparse can end a parse with. *)
Inductive usage_error :=
  | ExpectedOneArgument (option_string : string)
  | InvalidIntValue (option_string value : string)
  | InvalidChoice (option_string value : string)
  | RequiredMissing (names : list string)
  | UnrecognizedArguments (extras : list string).

Inductive event :=
  | Print (args : list pyval)
      (* print(a, b, ...) on standard output *)
  | PrintHelp
      (* argparse: the help text on standard output *)
  | PrintUsageError (e : usage_error)
      (* argparse: usage and error message on standard error *)
  | Getpass (prompt : string)
      (* getpass.getpass(prompt): a prompt that does not echo the reply *)
  | Session (session_kwargs : kwargs)
      (* boto3.Session: the session, built from session_kwargs *)
  | Client (service : string)
      (* session.client(service) *)
  | Call (method : string) (params : kwargs)
      (* rds.<method> called with keyword arguments params: one request
         to the provider *)
  | GetWaiter (name : string)
      (* rds.get_waiter(name) *)
  | WaiterWait (params : kwargs) (delay max_attempts : Z)
      (* waiter.wait called with params and a WaiterConfig holding Delay
         and MaxAttempts *)
  | StatusCheck (params : kwargs)
      (* one status request made by the waiter *)
  | Sleep (seconds : Z).
      (* the waiter's pause between two status requests *)

(** ** Runs: a trace with an outcome *)

Definition M (A : Type) : Type := list event * outcome A.

#[export] Instance M_ret : MRet M := fun A a => ([], Returns a).

#[export] Instance M_bind : MBind M := fun A B f m =>
  match m with
  | (t, Returns a) => let '(t', r) := f a in (t ++ t', r)
  | (t, Raises e) => (t, Raises e)
  | (t, Exits code) => (t, Exits code)
  end.

#[export] Instance M_fmap : FMap M := fun A B f m =>
  match m with
  | (t, Returns a) => (t, Returns (f a))
  | (t, Raises e) => (t, Raises e)
  | (t, Exits code) => (t, Exits code)
  end.

Definition emit (e : event) : M unit := ([e], Returns tt).

Definition raise {A} (e : exn) : M A := ([], Raises e).

Definition sys_exit {A} (code : Z) : M A := ([], Exits code).

Definition lift {A} (o : reply A) : M A :=
  match o with
  | Ok a => ([], Returns a)
  | Fails e => ([], Raises e)
  end.

(** [try: body except <classes> as e: handler e]: the handler is partial,
    [None] on the exceptions the [except] clauses do not name. *)
Definition try_except {A} (body : M A) (handler : exn -> option (M A)) : M A :=
  match body with
  | (t, Returns a) => (t, Returns a)
  | (t, Raises e) =>
      match handler e with
      | Some h => let '(t', r) := h in (t ++ t', r)
      | None => (t, Raises e)
      end
  | (t, Exits code) => (t, Exits code)
  end.

Definition trace_of {A} (m : M A) : list event := fst m.
Definition outcome_of {A} (m : M A) : outcome A := snd m.

(** The exit status of the interpreter for the outcome of the script: 0 when
    it runs to its end, the code of a [SystemExit], and 1 (after a traceback)
    for an exception that nothing caught. *)
Definition exit_status (r : outcome unit) : Z :=
  match r with
  | Returns _ => 0
  | Exits code => code
  | Raises _ => 1
  end.

(** ** Python's [int] on a string *)

(** [int(s)] as CPython 3.11 computes it with its defaults, on an argument
    string given by its bytes in UTF-8, the encoding the interpreter reads its
    command line in.  [None] stands for the [ValueError].

    A string that is not all ASCII is first brought to ASCII: a character
    below 127 stays, a Unicode blank becomes a space, a Unicode decimal digit
    becomes the ASCII digit of its value, and any other character, or a byte
    sequence that is no UTF-8 (which the interpreter reads as lone
    surrogates), is refused.  Then come blanks, an optional sign, decimal
    digits where single underscores may separate digits, and blanks; more
    than 4300 digits are refused. *)

(** The blanks [int] skips around the number: tab to carriage return, and the
    space. *)
Definition is_space (c : ascii) : bool :=
  let n := nat_of_ascii c in
  ((9 <=? n) && (n <=? 13) || (n =? 32))%nat.

Fixpoint lstrip (l : list ascii) : list ascii :=
  match l with
  | c :: l' => if is_space c then lstrip l' else l
  | [] => []
  end.

Definition strip (l : list ascii) : list ascii :=
  rev (lstrip (rev (lstrip l))).

Definition digit_val (c : ascii) : option Z :=
  let n := nat_of_ascii c in
  if ((48 <=? n) && (n <=? 57))%nat then Some (Z.of_nat n - 48) else None.

Fixpoint digits (l : list ascii) (acc : Z) (after_digit : bool) : option Z :=
  match l with
  | [] => if after_digit then Some acc else None
  | c :: l' =>
      if Ascii.eqb c "_"%char then
        if after_digit then digits l' acc false else None
      else
        match digit_val c with
        | Some d => digits l' (10 * acc + d) true
        | None => None
        end
  end.

(** The code points of a string in UTF-8; [None] when the bytes are not
    UTF-8: a stray or missing continuation byte, an overlong form, a
    surrogate, a code point above 0x10FFFF. *)
Definition continuation (b : N) : bool := ((128 <=? b) && (b <=? 191))%N.

Fixpoint code_points (l : list ascii) : option (list N) :=
  match l with
  | [] => Some []
  | c0 :: l1 =>
      let b0 := N_of_ascii c0 in
      if (b0 <? 128)%N then cons b0 <$> code_points l1
      else
        match l1 with
        | [] => None
        | c1 :: l2 =>
            let b1 := N_of_ascii c1 in
            if ((194 <=? b0) && (b0 <=? 223))%N then
              if continuation b1
              then cons ((b0 - 192) * 64 + (b1 - 128))%N <$> code_points l2
              else None
            else
              match l2 with
              | [] => None
              | c2 :: l3 =>
                  let b2 := N_of_ascii c2 in
                  if ((224 <=? b0) && (b0 <=? 239))%N then
                    let cp := ((b0 - 224) * 4096 + (b1 - 128) * 64 + (b2 - 128))%N in
                    if continuation b1 && continuation b2 && (2048 <=? cp)%N &&
                       negb ((55296 <=? cp) && (cp <=? 57343))%N
                    then cons cp <$> code_points l3
                    else None
                  else
                    match l3 with
                    | [] => None
                    | c3 :: l4 =>
                        let b3 := N_of_ascii c3 in
                        let cp := ((b0 - 240) * 262144 + (b1 - 128) * 4096 +
                                   (b2 - 128) * 64 + (b3 - 128))%N in
                        if ((240 <=? b0) && (b0 <=? 244))%N && continuation b1 &&
                           continuation b2 && continuation b3 &&
                           ((65536 <=? cp) && (cp <=? 1114111))%N
                        then cons cp <$> code_points l4
                        else None
                    end
              end
        end
  end.

(** The blanks of Unicode from 127 on ([str.isspace]). *)
Definition unicode_spaces : list N := [
  133; 160; 5760; 8192; 8193; 8194; 8195; 8196; 8197; 8198; 8199; 8200; 8201; 8202;
  8232; 8233; 8239; 8287; 12288
]%N.

(** The digit zero of each run of ten decimal digits of Unicode 14, the
    version of CPython 3.11 ([unicodedata.decimal]). *)
Definition decimal_zeros : list N := [
  48; 1632; 1776; 1984; 2406; 2534; 2662; 2790; 2918; 3046; 3174; 3302; 3430; 3558;
  3664; 3792; 3872; 4160; 4240; 6112; 6160; 6470; 6608; 6784; 6800; 6992; 7088; 7232;
  7248; 42528; 43216; 43264; 43472; 43504; 43600; 44016; 65296; 66720; 68912; 69734;
  69872; 69942; 70096; 70384; 70736; 70864; 71248; 71360; 71472; 71904; 72016; 72784;
  73040; 73120; 92768; 92864; 93008; 120782; 120792; 120802; 120812; 120822; 123200;
  123632; 125264; 130032
]%N.

Definition decimal_value (cp : N) : option N :=
  (fun zero => cp - zero)%N <$>
    List.find (fun zero => (zero <=? cp) && (cp <? zero + 10))%N decimal_zeros.

Definition to_ascii (cp : N) : option ascii :=
  if (cp <? 127)%N then Some (ascii_of_N cp)
  else if existsb (N.eqb cp) unicode_spaces then Some " "%char
  else (fun d => ascii_of_N (48 + d)) <$> decimal_value cp.

Definition ascii_form (l : list ascii) : option (list ascii) :=
  if forallb (fun c => N_of_ascii c <? 128)%N l then Some l
  else code_points l ≫= mapM to_ascii.

(** The most digits [int] converts ([sys.int_info.default_max_str_digits]). *)
Definition max_str_digits : nat := 4300.

Definition count_digits (l : list ascii) : nat :=
  List.length (List.filter (fun c => bool_decide (is_Some (digit_val c))) l).

Definition py_int (s : string) : option Z :=
  l ← ascii_form (list_ascii_of_string s);
  z ← match strip l with
      | c :: r =>
          if Ascii.eqb c "-"%char then Z.opp <$> digits r 0 false
          else if Ascii.eqb c "+"%char then digits r 0 false
          else digits (c :: r) 0 false
      | [] => None
      end;
  if (max_str_digits <? count_digits l)%nat then None else Some z.

(** ** argparse *)

(** The parser of the standard library, as its documentation describes it,
    for parsers that declare options only (this script declares no
    positional argument).  The command line is taken after argparse has told
    option strings from plain arguments: [Opt s] is an option string as
    declared ([--engine], [-i]), [Arg s] any other string.  The other
    spellings argparse accepts ([--engine=mysql], [-ifoo], unambiguous
    prefixes of long options) stand for the same sequences.  An option string
    that is not declared stands for one argparse matches with no option at
    all: it is left over.  An ambiguous prefix, which argparse refuses before
    any action runs, and the separator [--] have no counterpart here;
    [canonical], further down, is the form of command line on which this
    parser and argparse 3.11 do the same. *)
Module argparse.

Inductive arg_string :=
  | Opt (s : string)
  | Arg (s : string).

Inductive nargs := One | ZeroOrMore.
Inductive action := Store (n : nargs) | StoreTrue | Help.
Inductive type := Str | Int.

(** One [add_argument] call.  [default = None] is [argparse.SUPPRESS]:
    nothing is put in the namespace. *)
Record argument := {
  option_strings : list string;
  dest : string;
  act : action;
  type_ : type;
  choices : option (list string);
  required : bool;
  default : option pyval;
}.

(** The attributes of the namespace, by name. *)
Abbreviation Namespace := (gmap string pyval).

(** How a parse ends when it does not return a namespace. *)
Inductive stop :=
  | ExitHelp
  | ExitError (e : usage_error).

Record state := {
  namespace : Namespace;
  seen : list string;         (* dest of the actions taken *)
  extras : list string;       (* strings no action consumed *)
}.

Definition find_action (parser : list argument) (s : string) : option argument :=
  List.find (fun a => bool_decide (s ∈ option_strings a)) parser.

(** The conversion by [type]. *)
Definition get_value (a : argument) (o s : string) : stop + pyval :=
  match type_ a with
  | Str => inr (PyStr s)
  | Int =>
      match py_int s with
      | Some z => inr (PyInt z)
      | None => inl (ExitError (InvalidIntValue o s))
      end
  end.

(** The converted value must be one of the choices, if there are any. *)
Definition check_value (a : argument) (o s : string) (v : pyval) : stop + pyval :=
  match choices a with
  | None => inr v
  | Some cs =>
      match v with
      | PyStr s' => if bool_decide (s' ∈ cs) then inr v else inl (ExitError (InvalidChoice o s))
      | _ => inl (ExitError (InvalidChoice o s))
      end
  end.

Definition get_checked (a : argument) (o s : string) : stop + pyval :=
  match get_value a o s with
  | inr v => check_value a o s v
  | inl e => inl e
  end.

Fixpoint get_values (a : argument) (o : string) (args : list string) : stop + list pyval :=
  match args with
  | [] => inr []
  | s :: args' =>
      match get_checked a o s with
      | inl e => inl e
      | inr v =>
          match get_values a o args' with
          | inl e => inl e
          | inr vs => inr (v :: vs)
          end
      end
  end.

Definition record (a : argument) (v : pyval) (st : state) : state :=
  {| namespace := <[dest a := v]> (namespace st);
     seen := dest a :: seen st;
     extras := extras st |}.

Definition add_extras (l : list string) (st : state) : state :=
  {| namespace := namespace st; seen := seen st; extras := extras st ++ l |}.

(** An option string with the plain arguments that follow it, up to the
    next option string. *)
Definition consume_optional (parser : list argument)
    (g : string * list string) (st : state) : stop + state :=
  let '(o, args) := g in
  match find_action parser o with
  | None => inr (add_extras (o :: args) st)
  | Some a =>
      match act a with
      | Help => inl ExitHelp
      | StoreTrue => inr (add_extras args (record a (PyBool true) st))
      | Store One =>
          match args with
          | [] => inl (ExitError (ExpectedOneArgument o))
          | s :: surplus =>
              match get_checked a o s with
              | inl e => inl e
              | inr v => inr (add_extras surplus (record a v st))
              end
          end
      | Store ZeroOrMore =>
          match get_values a o args with
          | inl e => inl e
          | inr vs => inr (record a (PyList vs) st)
          end
      end
  end.

Fixpoint consume (parser : list argument)
    (gs : list (string * list string)) (st : state) : stop + state :=
  match gs with
  | [] => inr st
  | g :: gs' =>
      match consume_optional parser g st with
      | inl e => inl e
      | inr st' => consume parser gs' st'
      end
  end.

(** The plain arguments before the first option string, and each option
    string with the plain arguments after it. *)
Definition groups (argv : list arg_string) : list string * list (string * list string) :=
  foldr (fun x '(lead, gs) =>
           match x with
           | Arg s => (s :: lead, gs)
           | Opt o => ([], (o, lead) :: gs)
           end) ([], []) argv.

(** The namespace starts from the defaults. *)
Definition defaults (parser : list argument) : Namespace :=
  foldr (fun a ns =>
           match default a with
           | Some v => <[dest a := v]> ns
           | None => ns
           end) ∅ parser.

Definition action_name (a : argument) : string :=
  String.concat "/" (option_strings a).

Definition missing (parser : list argument) (st : state) : list string :=
  action_name <$>
    List.filter (fun a => required a && negb (bool_decide (dest a ∈ seen st))) parser.

(** Options are consumed from left to right; then the required ones must
    have been seen, and nothing may be left over. *)
Definition parse (parser : list argument) (argv : list arg_string) : stop + Namespace :=
  let '(lead, gs) := groups argv in
  let st0 := {| namespace := defaults parser; seen := []; extras := lead |} in
  match consume parser gs st0 with
  | inl e => inl e
  | inr st =>
      match missing parser st with
      | (_ :: _) as names => inl (ExitError (RequiredMissing names))
      | [] =>
          match extras st with
          | (_ :: _) as l => inl (ExitError (UnrecognizedArguments l))
          | [] => inr (namespace st)
          end
      end
  end.

(** [parser.parse_args()]: help goes to standard output and ends the
    process with status 0, an error goes to standard error with the usage
    and ends it with status 2. *)
Definition parse_args (parser : list argument) (argv : list arg_string) : M Namespace :=
  match parse parser argv with
  | inr ns => mret ns
  | inl ExitHelp => emit PrintHelp;; sys_exit 0
  | inl (ExitError e) => emit (PrintUsageError e);; sys_exit 2
  end.

End argparse.

Export argparse.

(** ** The world: the terminal and the provider *)

(** The parts of the provider's responses the script reads. *)
Record endpoint := {
  Address : option string;
  Port : option Z;
}.

Record db_instance := {
  DBInstanceStatus : option string;
  Endpoint : option endpoint;
}.

Record create_response := {
  DBInstance : option db_instance;
}.

Record describe_response := {
  DBInstances : list db_instance;
}.

(** What one status request tells the waiter: the instance is in the state
    waited for, it is in a state that can no longer reach it, it is not there
    yet, or the request raised.  A failure state comes with the text of the
    error the waiter raises for it, which names the state. *)
Inductive status :=
  | Success
  | Failure (text : string)
  | Retry
  | CheckRaises (e : exn).

Record world := {
  getpass_reply : string -> reply string;
  session_reply : kwargs -> reply unit;
  client_reply : string -> reply unit;
  create_db_instance_reply : kwargs -> reply create_response;
  status_reply : nat -> kwargs -> status;   (* the reply to the n-th request *)
  describe_db_instances_reply : kwargs -> reply describe_response;
}.

#[export] Instance pyval_inhabited : Inhabited pyval := populate PyNone.

Definition getpass (w : world) (prompt : string) : M string :=
  emit (Getpass prompt);; lift (getpass_reply w prompt).

(** ** botocore's waiter *)

(** The waiter asks for the status, stops on success or on a failure state,
    gives up when the number of requests made has reached [MaxAttempts], and
    otherwise sleeps [Delay] seconds and asks again.  [retries] is the number
    of further requests allowed, [n] the number of requests made so far. *)
Module botocore.

Definition max_attempts_exceeded : string :=
  "Waiter DBInstanceAvailable failed: Max attempts exceeded".

Fixpoint attempts (w : world) (params : kwargs) (delay : Z)
    (retries n : nat) : M unit :=
  emit (StatusCheck params);;
  match status_reply w n params with
  | Success => mret tt
  | Failure text => raise (WaiterError text)
  | CheckRaises e => raise e
  | Retry =>
      match retries with
      | O => raise (WaiterError max_attempts_exceeded)
      | S retries' => emit (Sleep delay);; attempts w params delay retries' (S n)
      end
  end.

Definition wait (w : world) (params : kwargs) (delay max_attempts : Z) : M unit :=
  emit (WaiterWait params delay max_attempts);;
  attempts w params delay (Z.to_nat (max_attempts - 1)) 0.

End botocore.

(** ** The script *)

Definition engine_choices : list string :=
  ["postgres"; "mysql"; "mariadb"; "oracle-se2"; "sqlserver-ex"].

Definition option_ (strings : list string) (d : string) (t : type)
    (cs : option (list string)) (req : bool) (v : pyval) : argument :=
  {| option_strings := strings; dest := d; act := Store One; type_ := t;
     choices := cs; required := req; default := Some v |}.

Definition flag (strings : list string) (d : string) : argument :=
  {| option_strings := strings; dest := d; act := StoreTrue; type_ := Str;
     choices := None; required := false; default := Some (PyBool false) |}.

(** The parser of [parse_args]: the help option every parser has, then one
    entry for each [add_argument], in the order of the source. *)
Definition parser : list argument := [
  {| option_strings := ["-h"; "--help"]; dest := "help"; act := Help;
     type_ := Str; choices := None; required := false; default := None |};
  option_ ["--db-instance-identifier"; "-i"] "db_instance_identifier" Str None true PyNone;
  option_ ["--db-instance-class"; "-c"] "db_instance_class" Str None false (PyStr "db.t3.micro");
  option_ ["--engine"] "engine" Str (Some engine_choices) false (PyStr "postgres");
  option_ ["--allocated-storage"] "allocated_storage" Int None false (PyInt 20);
  option_ ["--db-name"] "db_name" Str None false (PyStr "mydb");
  option_ ["--master-username"] "master_username" Str None false (PyStr "admin");
  option_ ["--master-user-password"] "master_user_password" Str None false PyNone;
  {| option_strings := ["--vpc-security-group-ids"]; dest := "vpc_security_group_ids";
     act := Store ZeroOrMore; type_ := Str; choices := None; required := false;
     default := Some PyNone |};
  option_ ["--db-subnet-group-name"] "db_subnet_group_name" Str None false PyNone;
  flag ["--publicly-accessible"] "publicly_accessible";
  flag ["--multi-az"] "multi_az";
  option_ ["--backup-retention-period"] "backup_retention_period" Int None false (PyInt 7);
  option_ ["--region"] "region" Str None false PyNone
].

Definition parse_args (argv : list arg_string) : M Namespace :=
  argparse.parse_args parser argv.

(** [args.name] is written [args !!! name]: [parse_args] sets every attribute
    the script reads, so the lookup never falls back on its default.
    [build_params] is the dictionary [params] of [create_db_instance] once the
    password is known. *)
Definition build_params (args : Namespace) (pw : pyval) : kwargs :=
  let params : kwargs := list_to_map [
    ("DBInstanceIdentifier", args !!! "db_instance_identifier");
    ("AllocatedStorage", args !!! "allocated_storage");
    ("DBInstanceClass", args !!! "db_instance_class");
    ("Engine", args !!! "engine");
    ("MasterUsername", args !!! "master_username");
    ("MasterUserPassword", pw);
    ("DBName", args !!! "db_name");
    ("MultiAZ", args !!! "multi_az");
    ("PubliclyAccessible", args !!! "publicly_accessible");
    ("BackupRetentionPeriod", args !!! "backup_retention_period");
    ("StorageType", PyStr "gp2")
  ] in
  let params :=
    if truthy (args !!! "vpc_security_group_ids")
    then <["VpcSecurityGroupIds" := args !!! "vpc_security_group_ids"]> params
    else params in
  let params :=
    if truthy (args !!! "db_subnet_group_name")
    then <["DBSubnetGroupName" := args !!! "db_subnet_group_name"]> params
    else params in
  params.

Definition create_db_instance (rds : world) (args : Namespace) : M bool :=
  pw ← (if truthy (args !!! "master_user_password")
        then mret (args !!! "master_user_password")
        else PyStr <$> getpass rds "Master user password: ");
  let params := build_params args pw in
  try_except
    (emit (Print [PyStr "Creating DB instance"; args !!! "db_instance_identifier"]);;
     emit (Call "create_db_instance" params);;
     resp ← lift (create_db_instance_reply rds params);
     emit (Print [PyStr "Create call accepted, status:";
                  opt_str (DBInstance resp ≫= DBInstanceStatus)]);;
     mret true)
    (fun e =>
       match e with
       | ClientError message =>
           Some (emit (Print [PyStr "Error creating DB instance:"; opt_str message]);;
                 mret false)
       | _ => None
       end).

(** [timeout_minutes] is an integer number of minutes.  Python divides in
    floating point and truncates; on integers up to [2^52] minutes that is
    the exact quotient, written here with [Z.quot].  The value read from the
    clock at the start is never used and leaves no event. *)
Definition wait_for_available (rds : world) (identifier : pyval)
    (timeout_minutes : Z) : M bool :=
  emit (GetWaiter "db_instance_available");;
  let timeout_seconds := timeout_minutes * 60 in
  try_except
    (emit (Print [PyStr "Waiting for DB instance to become available (this may take several minutes)..."]);;
     botocore.wait rds {["DBInstanceIdentifier" := identifier]}
       30 (Z.quot timeout_seconds 30);;
     mret true)
    (fun e =>
       match e with
       | WaiterError text =>
           Some (emit (Print [PyStr "Timed out waiting for DB to become available:";
                              PyStr text]);;
                 mret false)
       | ClientError message =>
           Some (emit (Print [PyStr "Error while waiting:"; opt_str message]);;
                 mret false)
       | _ => None
       end).

Definition default_timeout_minutes : Z := 30.

Definition describe_endpoint (rds : world) (identifier : pyval) : M (pyval * pyval) :=
  let params : kwargs := {["DBInstanceIdentifier" := identifier]} in
  try_except
    (emit (Call "describe_db_instances" params);;
     resp ← lift (describe_db_instances_reply rds params);
     inst ← match DBInstances resp with
            | inst :: _ => mret inst
            | [] => raise (OtherError "IndexError")
            end;
     let addr := opt_str (Endpoint inst ≫= Address) in
     let port := opt_int (Endpoint inst ≫= Port) in
     emit (Print [PyStr "DB instance available."]);;
     emit (Print [PyStr "Endpoint:"; addr]);;
     emit (Print [PyStr "Port:"; port]);;
     mret (addr, port))
    (fun e =>
       match e with
       | ClientError message =>
           Some (emit (Print [PyStr "Error describing DB instance:"; opt_str message]);;
                 mret (PyNone, PyNone))
       | _ => None
       end).

Definition session_kwargs (args : Namespace) : kwargs :=
  if truthy (args !!! "region")
  then {["region_name" := args !!! "region"]}
  else ∅.

Definition main (w : world) (argv : list arg_string) : M unit :=
  args ← parse_args argv;
  emit (Session (session_kwargs args));;
  lift (session_reply w (session_kwargs args));;
  emit (Client "rds");;
  lift (client_reply w "rds");;
  ok ← create_db_instance w args;
  (if negb ok then sys_exit 1 else mret tt);;
  ok ← wait_for_available w (args !!! "db_instance_identifier") default_timeout_minutes;
  (if negb ok then sys_exit 2 else mret tt);;
  describe_endpoint w (args !!! "db_instance_identifier");;
  mret tt.

(** The exit status of the process for a command line and a world. *)
Definition run (w : world) (argv : list arg_string) : Z :=
  exit_status (outcome_of (main w argv)).

(** A world in which everything goes well after [pending] status requests
    that find the instance not ready yet. *)
Definition good_world (pending : nat) : world :=
  {| getpass_reply := fun _ => Ok "s3cret";
     session_reply := fun _ => Ok tt;
     client_reply := fun _ => Ok tt;
     create_db_instance_reply := fun _ =>
       Ok {| DBInstance := Some {| DBInstanceStatus := Some "creating"; Endpoint := None |} |};
     status_reply := fun n _ => if (n <? pending)%nat then Retry else Success;
     describe_db_instances_reply := fun _ =>
       Ok {| DBInstances := [ {| DBInstanceStatus := Some "available";
                                      Endpoint := Some {| Address := Some "db.example.org";
                                                          Port := Some 5432 |} |} ] |} |}.


(** The same world, where the provider refuses the create request. *)
Definition refusing_world : world :=
  {| getpass_reply := getpass_reply (good_world 0);
     session_reply := session_reply (good_world 0);
     client_reply := client_reply (good_world 0);
     create_db_instance_reply := fun _ =>
       Fails (ClientError (Some "DB instance already exists"));
     status_reply := status_reply (good_world 0);
     describe_db_instances_reply := describe_db_instances_reply (good_world 0) |}.

(** The same world, where the provider refuses the describe request. *)
Definition undescribed_world : world :=
  {| getpass_reply := getpass_reply (good_world 0);
     session_reply := session_reply (good_world 0);
     client_reply := client_reply (good_world 0);
     create_db_instance_reply := create_db_instance_reply (good_world 0);
     status_reply := status_reply (good_world 0);
     describe_db_instances_reply := fun _ =>
       Fails (ClientError (Some "DBInstance db1 not found")) |}.

(** A world where the instance never becomes available. *)
Definition stuck_world : world :=
  {| getpass_reply := getpass_reply (good_world 0);
     session_reply := session_reply (good_world 0);
     client_reply := client_reply (good_world 0);
     create_db_instance_reply := create_db_instance_reply (good_world 0);
     status_reply := fun _ _ => Retry;
     describe_db_instances_reply := describe_db_instances_reply (good_world 0) |}.

(** The namespace of a command line that parses, for examples. *)
Definition parsed (argv : list arg_string) : Namespace :=
  match parse parser argv with
  | inr args => args
  | inl _ => ∅
  end.

(** ** What is read off a trace *)

(** Events that reach out to the provider: the session, the client, and
    every call made through them. *)
Definition provider_event (e : event) : bool :=
  match e with
  | Session _ | Client _ | Call _ _ | GetWaiter _ | WaiterWait _ _ _ | StatusCheck _ => true
  | _ => false
  end.

(** Calls on the client and on its waiter. *)
Definition request_event (e : event) : bool :=
  match e with
  | Call _ _ | GetWaiter _ | WaiterWait _ _ _ | StatusCheck _ => true
  | _ => false
  end.

(** The operations the script invokes on the client and the waiter, by name
    and in order; the status requests the waiter makes belong to [wait]. *)
Definition operation (e : event) : option string :=
  match e with
  | Call method _ => Some method
  | GetWaiter _ => Some "get_waiter"
  | WaiterWait _ _ _ => Some "wait"
  | _ => None
  end.

Definition operations (t : list event) : list string := omap operation t.

Definition is_status_check (e : event) : bool :=
  match e with StatusCheck _ => true | _ => false end.

Definition status_checks (t : list event) : nat :=
  List.length (List.filter is_status_check t).

Definition is_getpass (e : event) : bool :=
  match e with Getpass _ => true | _ => false end.

Definition password_prompt : string := "Master user password: ".

(** The events of the three steps, as the script prints and calls. *)
Definition creating (args : Namespace) (params : kwargs) : list event :=
  [Print [PyStr "Creating DB instance"; args !!! "db_instance_identifier"];
   Call "create_db_instance" params].

Definition waiting : list event :=
  [GetWaiter "db_instance_available";
   Print [PyStr "Waiting for DB instance to become available (this may take several minutes)..."]].

Definition identified (identifier : pyval) : kwargs :=
  {["DBInstanceIdentifier" := identifier]}.

(** ** The runs of each function *)

(** The ways each function of the script can run, with the trace it leaves
    and its outcome: one constructor for each path through its body. *)

Definition uncaught_by_create (e : exn) : Prop :=
  forall message, e <> ClientError message.

Definition uncaught_by_wait (e : exn) : Prop :=
  (forall text, e <> WaiterError text) /\ (forall message, e <> ClientError message).

Inductive password_run (w : world) (args : Namespace) : list event -> pyval -> Prop :=
  | password_given :
      truthy (args !!! "master_user_password") = true ->
      password_run w args [] (args !!! "master_user_password")
  | password_prompted s :
      truthy (args !!! "master_user_password") = false ->
      getpass_reply w password_prompt = Ok s ->
      password_run w args [Getpass password_prompt] (PyStr s).

Inductive create_run (w : world) (args : Namespace) : M bool -> Prop :=
  | create_accepted tp pw resp :
      password_run w args tp pw ->
      create_db_instance_reply w (build_params args pw) = Ok resp ->
      create_run w args
        (tp ++ creating args (build_params args pw) ++
           [Print [PyStr "Create call accepted, status:";
                   opt_str (DBInstance resp ≫= DBInstanceStatus)]],
         Returns true)
  | create_refused tp pw message :
      password_run w args tp pw ->
      create_db_instance_reply w (build_params args pw) = Fails (ClientError message) ->
      create_run w args
        (tp ++ creating args (build_params args pw) ++
           [Print [PyStr "Error creating DB instance:"; opt_str message]],
         Returns false)
  | create_raised tp pw e :
      password_run w args tp pw ->
      create_db_instance_reply w (build_params args pw) = Fails e ->
      uncaught_by_create e ->
      create_run w args (tp ++ creating args (build_params args pw), Raises e)
  | create_unprompted e :
      truthy (args !!! "master_user_password") = false ->
      getpass_reply w password_prompt = Fails e ->
      create_run w args ([Getpass password_prompt], Raises e).

Definition max_attempts (timeout_minutes : Z) : Z :=
  Z.quot (timeout_minutes * 60) 30.

Inductive wait_run (w : world) (identifier : pyval) (timeout_minutes : Z) :
    M bool -> Prop :=
  | wait_available ta :
      botocore.wait w (identified identifier) 30 (max_attempts timeout_minutes)
        = (ta, Returns tt) ->
      wait_run w identifier timeout_minutes (waiting ++ ta, Returns true)
  | wait_timed_out ta text :
      botocore.wait w (identified identifier) 30 (max_attempts timeout_minutes)
        = (ta, Raises (WaiterError text)) ->
      wait_run w identifier timeout_minutes
        (waiting ++ ta ++
           [Print [PyStr "Timed out waiting for DB to become available:"; PyStr text]],
         Returns false)
  | wait_errored ta message :
      botocore.wait w (identified identifier) 30 (max_attempts timeout_minutes)
        = (ta, Raises (ClientError message)) ->
      wait_run w identifier timeout_minutes
        (waiting ++ ta ++ [Print [PyStr "Error while waiting:"; opt_str message]],
         Returns false)
  | wait_raised ta e :
      botocore.wait w (identified identifier) 30 (max_attempts timeout_minutes)
        = (ta, Raises e) ->
      uncaught_by_wait e ->
      wait_run w identifier timeout_minutes (waiting ++ ta, Raises e).

Definition described (identifier : pyval) : event :=
  Call "describe_db_instances" (identified identifier).

Definition address_of (inst : db_instance) : pyval := opt_str (Endpoint inst ≫= Address).
Definition port_of (inst : db_instance) : pyval := opt_int (Endpoint inst ≫= Port).

Inductive describe_run (w : world) (identifier : pyval) : M (pyval * pyval) -> Prop :=
  | describe_found resp inst rest :
      describe_db_instances_reply w (identified identifier) = Ok resp ->
      DBInstances resp = inst :: rest ->
      describe_run w identifier
        ([described identifier;
          Print [PyStr "DB instance available."];
          Print [PyStr "Endpoint:"; address_of inst];
          Print [PyStr "Port:"; port_of inst]],
         Returns (address_of inst, port_of inst))
  | describe_empty resp :
      describe_db_instances_reply w (identified identifier) = Ok resp ->
      DBInstances resp = [] ->
      describe_run w identifier ([described identifier], Raises (OtherError "IndexError"))
  | describe_refused message :
      describe_db_instances_reply w (identified identifier) = Fails (ClientError message) ->
      describe_run w identifier
        ([described identifier;
          Print [PyStr "Error describing DB instance:"; opt_str message]],
         Returns (PyNone, PyNone))
  | describe_raised e :
      describe_db_instances_reply w (identified identifier) = Fails e ->
      uncaught_by_create e ->
      describe_run w identifier ([described identifier], Raises e).

Definition connecting (args : Namespace) : list event :=
  [Session (session_kwargs args); Client "rds"].

Inductive main_run (w : world) (argv : list arg_string) : M unit -> Prop :=
  | main_help :
      parse parser argv = inl ExitHelp ->
      main_run w argv ([PrintHelp], Exits 0)
  | main_usage e :
      parse parser argv = inl (ExitError e) ->
      main_run w argv ([PrintUsageError e], Exits 2)
  | main_no_session args e :
      parse parser argv = inr args ->
      session_reply w (session_kwargs args) = Fails e ->
      main_run w argv ([Session (session_kwargs args)], Raises e)
  | main_no_client args e :
      parse parser argv = inr args ->
      session_reply w (session_kwargs args) = Ok tt ->
      client_reply w "rds" = Fails e ->
      main_run w argv (connecting args, Raises e)
  | main_create_raised args tc e :
      parse parser argv = inr args ->
      create_run w args (tc, Raises e) ->
      main_run w argv (connecting args ++ tc, Raises e)
  | main_create_failed args tc :
      parse parser argv = inr args ->
      create_run w args (tc, Returns false) ->
      main_run w argv (connecting args ++ tc, Exits 1)
  | main_wait_raised args tc tw e :
      parse parser argv = inr args ->
      create_run w args (tc, Returns true) ->
      wait_run w (args !!! "db_instance_identifier") default_timeout_minutes (tw, Raises e) ->
      main_run w argv (connecting args ++ tc ++ tw, Raises e)
  | main_wait_failed args tc tw :
      parse parser argv = inr args ->
      create_run w args (tc, Returns true) ->
      wait_run w (args !!! "db_instance_identifier") default_timeout_minutes (tw, Returns false) ->
      main_run w argv (connecting args ++ tc ++ tw, Exits 2)
  | main_describe_raised args tc tw td e :
      parse parser argv = inr args ->
      create_run w args (tc, Returns true) ->
      wait_run w (args !!! "db_instance_identifier") default_timeout_minutes (tw, Returns true) ->
      describe_run w (args !!! "db_instance_identifier") (td, Raises e) ->
      main_run w argv (connecting args ++ tc ++ tw ++ td, Raises e)
  | main_done args tc tw td result :
      parse parser argv = inr args ->
      create_run w args (tc, Returns true) ->
      wait_run w (args !!! "db_instance_identifier") default_timeout_minutes (tw, Returns true) ->
      describe_run w (args !!! "db_instance_identifier") (td, Returns result) ->
      main_run w argv (connecting args ++ tc ++ tw ++ td, Returns tt).

(** ** Statements about runs *)

#[export] Instance arg_string_eq_dec : EqDecision arg_string.
Proof. solve_decision. Defined.

(** The command line gives the instance identifier under neither of its
    option strings. *)
Definition omits_identifier (argv : list arg_string) : Prop :=
  (Opt "--db-instance-identifier" ∉ argv) /\ (Opt "-i" ∉ argv).

Definition asks_help (argv : list arg_string) : Prop :=
  (Opt "-h" ∈ argv) \/ (Opt "--help" ∈ argv).

(** The run ends in argparse: with a usage error, or with the help. *)
Definition usage_exit (m : M unit) : Prop :=
  exists e, m = ([PrintUsageError e], Exits 2).

Definition help_exit (m : M unit) : Prop :=
  m = ([PrintHelp], Exits 0).

(** No session, no client, no call to the provider. *)
Definition offline (t : list event) : Prop :=
  Forall (fun e => provider_event e = false) t.

(** The create request of the run was answered by a client error. *)
Definition create_failed (w : world) (t : list event) : Prop :=
  exists params message,
    Call "create_db_instance" params ∈ t /\
    create_db_instance_reply w params = Fails (ClientError message).

(** The create request of the run was accepted. *)
Definition create_succeeded (w : world) (t : list event) : Prop :=
  exists params resp,
    Call "create_db_instance" params ∈ t /\
    create_db_instance_reply w params = Ok resp.

(** The wait of the run ended with the instance available. *)
Definition wait_succeeded (w : world) (t : list event) : Prop :=
  exists params delay n,
    WaiterWait params delay n ∈ t /\
    outcome_of (botocore.wait w params delay n) = Returns tt.

(** The exceptions [wait_for_available] catches: the waiter timed out or met
    a failure state, or the provider reported an error. *)
Definition handled_by_wait (e : exn) : Prop :=
  (exists text, e = WaiterError text) \/ (exists message, e = ClientError message).

(** The wait of the run ended with one of them. *)
Definition wait_failed (w : world) (t : list event) : Prop :=
  exists params delay n e,
    WaiterWait params delay n ∈ t /\
    outcome_of (botocore.wait w params delay n) = Raises e /\
    handled_by_wait e.


(** The password prompts of a trace. *)
Definition prompts (t : list event) : list event := List.filter is_getpass t.

Definition is_create (e : event) : bool :=
  match e with
  | Call method _ => String.eqb method "create_db_instance"
  | _ => false
  end.

(** The order in which the script goes through its operations. *)
Definition workflow : list string :=
  ["create_db_instance"; "get_waiter"; "wait"; "describe_db_instances"].

(** The parameters every create request has. *)
Definition always_keys : list string :=
  ["DBInstanceIdentifier"; "AllocatedStorage"; "DBInstanceClass"; "Engine";
   "MasterUsername"; "MasterUserPassword"; "DBName"; "MultiAZ"; "PubliclyAccessible";
   "BackupRetentionPeriod"; "StorageType"].

(** The values an action stores. *)
Definition produced (a : argument) (v : pyval) : Prop :=
  match act a with
  | Help => False
  | StoreTrue => v = PyBool true
  | Store One => exists o s, get_checked a o s = inr v
  | Store ZeroOrMore => exists o l vs, get_values a o l = inr vs /\ v = PyList vs
  end.

(** The attributes the script reads from the namespace. *)
Definition attributes : list string :=
  ["db_instance_identifier"; "db_instance_class"; "engine"; "allocated_storage";
   "db_name"; "master_username"; "master_user_password"; "vpc_security_group_ids";
   "db_subnet_group_name"; "publicly_accessible"; "multi_az";
   "backup_retention_period"; "region"].

(** ** Other worlds *)

(** The worlds of the examples where something goes wrong: each is the good
    world but for one answer. *)

(** No region is configured: the client cannot be obtained. *)
Definition regionless_world : world :=
  {| getpass_reply := getpass_reply (good_world 0);
     session_reply := session_reply (good_world 0);
     client_reply := fun _ => Fails (OtherError "NoRegionError");
     create_db_instance_reply := create_db_instance_reply (good_world 0);
     status_reply := status_reply (good_world 0);
     describe_db_instances_reply := describe_db_instances_reply (good_world 0) |}.

(** The terminal is closed: the prompt cannot be answered. *)
Definition unattended_world : world :=
  {| getpass_reply := fun _ => Fails (OtherError "EOFError");
     session_reply := session_reply (good_world 0);
     client_reply := client_reply (good_world 0);
     create_db_instance_reply := create_db_instance_reply (good_world 0);
     status_reply := status_reply (good_world 0);
     describe_db_instances_reply := describe_db_instances_reply (good_world 0) |}.

(** The provider cannot be reached when the create request is sent. *)
Definition unreachable_world : world :=
  {| getpass_reply := getpass_reply (good_world 0);
     session_reply := session_reply (good_world 0);
     client_reply := client_reply (good_world 0);
     create_db_instance_reply := fun _ => Fails (OtherError "EndpointConnectionError");
     status_reply := status_reply (good_world 0);
     describe_db_instances_reply := describe_db_instances_reply (good_world 0) |}.

(** A string between double quotes. *)
Definition quoted (s : string) : string :=
  String (ascii_of_nat 34) (String.append s (String (ascii_of_nat 34) EmptyString)).

(** The text of a waiter's error for an instance that went to the state
    [failed]. *)
Definition failed_state_text : string :=
  String.concat EmptyString [
    "Waiter DBInstanceAvailable failed: Waiter encountered a terminal failure state: ";
    "For expression "; quoted "DBInstances[].DBInstanceStatus";
    " we matched expected path: "; quoted "failed"; " at least once" ].

(** The instance goes to a failure state after one status request. *)
Definition failing_world : world :=
  {| getpass_reply := getpass_reply (good_world 0);
     session_reply := session_reply (good_world 0);
     client_reply := client_reply (good_world 0);
     create_db_instance_reply := create_db_instance_reply (good_world 0);
     status_reply := fun n _ => if (n <? 1)%nat then Retry else Failure failed_state_text;
     describe_db_instances_reply := describe_db_instances_reply (good_world 0) |}.

(** The connection is lost during the wait. *)
Definition disconnected_world : world :=
  {| getpass_reply := getpass_reply (good_world 0);
     session_reply := session_reply (good_world 0);
     client_reply := client_reply (good_world 0);
     create_db_instance_reply := create_db_instance_reply (good_world 0);
     status_reply := fun n _ =>
       if (n <? 1)%nat then Retry else CheckRaises (OtherError "EndpointConnectionError");
     describe_db_instances_reply := describe_db_instances_reply (good_world 0) |}.

(** The describe request is answered with no instance. *)
Definition vanished_world : world :=
  {| getpass_reply := getpass_reply (good_world 0);
     session_reply := session_reply (good_world 0);
     client_reply := client_reply (good_world 0);
     create_db_instance_reply := create_db_instance_reply (good_world 0);
     status_reply := status_reply (good_world 0);
     describe_db_instances_reply := fun _ => Ok {| DBInstances := [] |} |}.

(** ** The command lines the model reads *)

(** A string argparse takes as a plain argument wherever it stands: one that
    does not start with a dash, or a dash followed by decimal digits, which
    is a negative number to it. *)
Definition plain (s : string) : bool :=
  match s with
  | String c r =>
      if Ascii.eqb c "-"%char
      then match list_ascii_of_string r with
           | [] => false
           | d :: l => forallb (fun x => bool_decide (is_Some (digit_val x))) (d :: l)
           end
      else true
  | EmptyString => true
  end.

(** The part of an option-like string before its first [=]. *)
Fixpoint before_equals (s : string) : string :=
  match s with
  | String c r => if Ascii.eqb c "="%char then EmptyString else String c (before_equals r)
  | EmptyString => EmptyString
  end.

Definition declared_strings (p : list argument) : list string :=
  p ≫= option_strings.

(** The declared option strings argparse matches an option-like string with:
    for one with two dashes, those that start with it, up to its [=]; for
    one with one dash, the one made of its first letter and those that start
    with it. *)
Definition candidates (p : list argument) (o : string) : list string :=
  match o with
  | String d (String c r) =>
      if Ascii.eqb d "-"%char then
        if Ascii.eqb c "-"%char
        then List.filter (String.prefix (before_equals o)) (declared_strings p)
        else List.filter (fun s => String.eqb s (String d (String c EmptyString)) ||
                                   String.prefix o s)
               (declared_strings p)
      else []
  | _ => []
  end.

(** A string argparse takes as an option and matches with none: a dash, then
    an ASCII character that is neither a digit nor a dot (so that it is no
    negative number), no space, and no candidate among the declared option
    strings. *)
Definition unknown (p : list argument) (o : string) : bool :=
  match o with
  | String d (String c r) =>
      Ascii.eqb d "-"%char &&
      (N_of_ascii c <? 128)%N &&
      negb (bool_decide (is_Some (digit_val c))) &&
      negb (Ascii.eqb c "."%char) &&
      negb (existsb (Ascii.eqb " "%char) (list_ascii_of_string o)) &&
      match candidates p o with [] => true | _ :: _ => false end
  | _ => false
  end.

(** A command line in the form the model reads: every option string is
    declared, or is one argparse matches with no option, and every plain
    argument is one argparse takes as such. *)
Definition canonical (argv : list arg_string) : bool :=
  forallb (fun x =>
             match x with
             | Opt o =>
                 match find_action parser o with
                 | Some _ => true
                 | None => unknown parser o
                 end
             | Arg s => plain s
             end) argv.

(** ** A wait that ends with an exception *)



(** ** What argparse leaves over *)

(** What is left over of a group: the option string when no action has it,
    the plain arguments after the first for an action that stores one value,
    all of them for a flag. *)
Definition leftover (p : list argument) (g : string * list string) : list string :=
  match find_action p g.1 with
  | None => g.1 :: g.2
  | Some a =>
      match act a with
      | Store One => tail g.2
      | StoreTrue => g.2
      | _ => []
      end
  end.

(** What the parser does not consume: the plain arguments before the first
    option, an option string that matches no declared option, the plain
    arguments after the value of an option that stores one value, and those
    after a flag. *)
Inductive unrecognized : list arg_string -> Prop :=
  | unrecognized_leading s rest :
      unrecognized (Arg s :: rest)
  | unrecognized_option pre o rest :
      unknown parser o = true ->
      unrecognized (pre ++ Opt o :: rest)
  | unrecognized_surplus pre o a v s rest :
      find_action parser o = Some a -> act a = Store One ->
      unrecognized (pre ++ Opt o :: Arg v :: Arg s :: rest)
  | unrecognized_after_flag pre o a s rest :
      find_action parser o = Some a -> act a = StoreTrue ->
      unrecognized (pre ++ Opt o :: Arg s :: rest).

(** ** What the waiter does *)

(** The status requests of a waiter that is answered [k] times that the
    instance is not ready: [k + 1] requests with a pause between them. *)
Fixpoint polling (params : kwargs) (delay : Z) (k : nat) : list event :=
  match k with
  | O => [StatusCheck params]
  | S k' => StatusCheck params :: Sleep delay :: polling params delay k'
  end.

(** How the waiter ends on the answer to its last request. *)
Definition ending (s : status) : outcome unit :=
  match s with
  | Success => Returns tt
  | Failure text => Raises (WaiterError text)
  | CheckRaises e => Raises e
  | Retry => Raises (WaiterError botocore.max_attempts_exceeded)
  end.

(** The seconds slept in a trace. *)
Definition slept (t : list event) : Z :=
  foldr (fun e total => match e with Sleep seconds => seconds + total | _ => total end) 0 t.

(** ** Laws of the run monad *)

Lemma bind_pair {A B} (t : list event) (r : outcome A) (k : A -> M B) :
  ((t, r) ≫= k) =
  match r with
  | Returns a => (t ++ (k a).1, (k a).2)
  | Raises e => (t, Raises e)
  | Exits code => (t, Exits code)
  end.
Proof. destruct r; try done. unfold mbind, M_bind. by destruct (k a). Qed.

Lemma bind_emit {B} (e : event) (k : unit -> M B) :
  (emit e ≫= k) = (e :: (k tt).1, (k tt).2).
Proof. unfold emit. by rewrite bind_pair. Qed.

Lemma bind_ret {A B} (a : A) (k : A -> M B) : (mret a ≫= k) = k a.
Proof. unfold mret, M_ret. rewrite bind_pair. by destruct (k a). Qed.

Lemma bind_lift {A B} (o : reply A) (k : A -> M B) :
  (lift o ≫= k) = match o with Ok a => k a | Fails e => ([], Raises e) end.
Proof. destruct o; [|done]. apply (bind_ret a k). Qed.

Lemma bind_raise {A B} (e : exn) (k : A -> M B) :
  (raise e ≫= k) = ([], Raises e).
Proof. done. Qed.

Lemma bind_sys_exit {A B} (code : Z) (k : A -> M B) :
  (sys_exit code ≫= k) = ([], Exits code).
Proof. done. Qed.

Ltac run_simpl :=
  repeat first
    [ rewrite bind_emit | rewrite bind_ret | rewrite bind_lift
    | rewrite bind_raise | rewrite bind_sys_exit | rewrite bind_pair ];
  cbn [fst snd mret M_ret];
  rewrite ?app_nil_r.

(** ** The waiter stops *)

Lemma attempts_unfold w params delay retries n :
  botocore.attempts w params delay retries n =
  (emit (StatusCheck params);;
   match status_reply w n params with
   | Success => mret tt
   | Failure text => raise (WaiterError text)
   | CheckRaises e => raise e
   | Retry =>
       match retries with
       | O => raise (WaiterError botocore.max_attempts_exceeded)
       | S retries' =>
           emit (Sleep delay);; botocore.attempts w params delay retries' (S n)
       end
   end).
Proof. by destruct retries. Qed.

(** The waiter only asks for the status and sleeps; it asks at least once
    and at most once more than the retries it is allowed; it never ends the
    process. *)
Lemma attempts_trace w params delay retries n :
  Forall (fun e => e = StatusCheck params \/ e = Sleep delay)
         (trace_of (botocore.attempts w params delay retries n)) /\
  (1 <= status_checks (trace_of (botocore.attempts w params delay retries n)) <= S retries)%nat /\
  (forall code, outcome_of (botocore.attempts w params delay retries n) <> Exits code).
Proof.
  revert n. induction retries as [|retries IH]; intros n;
    rewrite attempts_unfold, bind_emit; unfold trace_of, outcome_of; cbn [fst snd];
    destruct (status_reply w n params);
    try (cbn; split; [repeat constructor; auto | split; [lia|done]]).
  rewrite bind_emit. cbn [fst snd].
  destruct (IH (S n)) as (Hall & Hn & Hx). unfold trace_of, outcome_of in Hall, Hn, Hx.
  split; [|split].
  - constructor; [auto|]. constructor; [auto|]. exact Hall.
  - unfold status_checks in *. cbn. cbn in Hn. lia.
  - exact Hx.
Qed.

Lemma wait_trace w params delay n ta r :
  botocore.wait w params delay n = (ta, r) ->
  exists tb,
    ta = WaiterWait params delay n :: tb /\
    Forall (fun e => e = StatusCheck params \/ e = Sleep delay) tb /\
    (1 <= status_checks tb <= S (Z.to_nat (n - 1)))%nat /\
    (forall code, r <> Exits code).
Proof.
  unfold botocore.wait. rewrite bind_emit.
  destruct (attempts_trace w params delay (Z.to_nat (n - 1)) 0%nat) as (Hall & Hn & Hx).
  intros [= <- <-]. eexists. split; [done|]. split; [done|]. split; done.
Qed.

(** ** Each function runs along one of its paths *)

Lemma create_db_instance_run w args : create_run w args (create_db_instance w args).
Proof.
  unfold create_db_instance.
  destruct (truthy (args !!! "master_user_password")) eqn:Hpw.
  - rewrite bind_ret. unfold try_except. run_simpl.
    destruct (create_db_instance_reply w _) as [resp|e] eqn:Hr.
    + run_simpl. by apply (create_accepted w args [] _ resp); [constructor|].
    + destruct e; cbn [fst snd].
      * by apply (create_refused w args [] _ message); [constructor|].
      * by apply (create_raised w args [] _ (WaiterError text)); [constructor| |].
      * by apply (create_raised w args [] _ (OtherError class_name)); [constructor| |].
  - unfold getpass. fold password_prompt. rewrite bind_emit. cbn [fst snd].
    destruct (getpass_reply w password_prompt) as [s|e] eqn:Hg;
      cbn [lift fst snd fmap M_fmap]; rewrite bind_pair.
    + unfold try_except. run_simpl.
      destruct (create_db_instance_reply w _) as [resp|e] eqn:Hr.
      * run_simpl.
        by apply (create_accepted w args [Getpass password_prompt] _ resp);
          [constructor|].
      * destruct e; cbn [fst snd app].
        -- by apply (create_refused w args [Getpass password_prompt] _ message);
             [constructor|].
        -- by apply (create_raised w args [Getpass password_prompt] _ (WaiterError text));
             [constructor| |].
        -- by apply (create_raised w args [Getpass password_prompt] _ (OtherError class_name));
             [constructor| |].
    + by apply create_unprompted.
Qed.

Lemma wait_for_available_run w identifier timeout_minutes :
  wait_run w identifier timeout_minutes
    (wait_for_available w identifier timeout_minutes).
Proof.
  unfold wait_for_available. fold (identified identifier) (max_attempts timeout_minutes).
  rewrite !bind_emit.
  destruct (botocore.wait w (identified identifier) 30 (max_attempts timeout_minutes))
    as [ta r] eqn:Hw.
  pose proof (wait_trace _ _ _ _ _ _ Hw) as (_ & _ & _ & _ & Hx).
  destruct r as [[]|e|code]; unfold try_except; run_simpl.
  - by apply wait_available.
  - destruct e; cbn [fst snd app].
    + by apply (wait_errored w identifier timeout_minutes ta message).
    + by apply (wait_timed_out w identifier timeout_minutes ta text).
    + by apply (wait_raised w identifier timeout_minutes ta (OtherError class_name)).
  - by destruct (Hx code).
Qed.

Lemma describe_endpoint_run w identifier :
  describe_run w identifier (describe_endpoint w identifier).
Proof.
  unfold describe_endpoint. fold (identified identifier). unfold try_except.
  rewrite bind_emit, bind_lift. fold (described identifier).
  destruct (describe_db_instances_reply w (identified identifier)) as [resp|e] eqn:Hr.
  - destruct (DBInstances resp) as [|inst rest] eqn:Hi; run_simpl.
    + by apply (describe_empty w identifier resp).
    + by apply (describe_found w identifier resp inst rest).
  - destruct e; cbn [fst snd app].
    + by apply describe_refused.
    + by apply (describe_raised w identifier (WaiterError text)).
    + by apply (describe_raised w identifier (OtherError class_name)).
Qed.

Lemma create_run_no_exit w args tc code : ~ create_run w args (tc, Exits code).
Proof. by inversion 1. Qed.

Lemma wait_run_no_exit w identifier timeout_minutes tw code :
  ~ wait_run w identifier timeout_minutes (tw, Exits code).
Proof. by inversion 1. Qed.

Lemma describe_run_no_exit w identifier td code :
  ~ describe_run w identifier (td, Exits code).
Proof. by inversion 1. Qed.

(** Every run of the script is one of the runs of [main_run]. *)
Lemma main_runs w argv : main_run w argv (main w argv).
Proof.
  unfold main, parse_args, argparse.parse_args.
  destruct (parse parser argv) as [[|e]|args] eqn:Hp.
  - run_simpl. by apply main_help.
  - run_simpl. by apply main_usage.
  - rewrite bind_ret, bind_emit, bind_lift.
    destruct (session_reply w (session_kwargs args)) as [[]|e] eqn:Hs;
      [|by apply main_no_session].
    rewrite bind_emit, bind_lift.
    destruct (client_reply w "rds") as [[]|e] eqn:Hc;
      [|by apply main_no_client].
    pose proof (create_db_instance_run w args) as Hcreate.
    destruct (create_db_instance w args) as [tc [[]|e|code]];
      rewrite bind_pair; cbn [fst snd negb];
      [ | rewrite bind_sys_exit; cbn [fst snd]; rewrite app_nil_r;
          by apply (main_create_failed w argv args tc)
        | by apply (main_create_raised w argv args tc e)
        | by destruct (create_run_no_exit _ _ _ _ Hcreate) ].
    rewrite bind_ret.
    pose proof (wait_for_available_run w (args !!! "db_instance_identifier")
                  default_timeout_minutes) as Hwait.
    destruct (wait_for_available w _ _) as [tw [[]|e|code]];
      rewrite bind_pair; cbn [fst snd negb];
      [ | rewrite bind_sys_exit; cbn [fst snd]; rewrite app_nil_r;
          by apply (main_wait_failed w argv args tc tw)
        | by apply (main_wait_raised w argv args tc tw e)
        | by destruct (wait_run_no_exit _ _ _ _ _ Hwait) ].
    rewrite bind_ret.
    pose proof (describe_endpoint_run w (args !!! "db_instance_identifier")) as Hd.
    destruct (describe_endpoint w _) as [td [result|e|code]];
      rewrite bind_pair; cbn [fst snd mret M_ret].
    + rewrite ?app_nil_r. by apply (main_done w argv args tc tw td result).
    + by apply (main_describe_raised w argv args tc tw td e).
    + by destruct (describe_run_no_exit _ _ _ _ Hd).
Qed.

(** ** Facts about the parser *)

Lemma find_action_Some p o a :
  find_action p o = Some a -> a ∈ p /\ o ∈ option_strings a.
Proof.
  unfold find_action. intros H. apply List.find_some in H as [Hin Hb].
  split; [by apply list_elem_of_In | by apply bool_decide_eq_true in Hb].
Qed.

Lemma groups_arg s argv :
  groups (Arg s :: argv) = (s :: (groups argv).1, (groups argv).2).
Proof. unfold groups. cbn [foldr]. by destruct (foldr _ _ argv). Qed.

Lemma groups_opt o argv :
  groups (Opt o :: argv) = ([], (o, (groups argv).1) :: (groups argv).2).
Proof. unfold groups. cbn [foldr]. by destruct (foldr _ _ argv). Qed.

(** Every group starts at an option string of the command line. *)
Lemma groups_options argv o args :
  (o, args) ∈ (groups argv).2 -> Opt o ∈ argv.
Proof.
  induction argv as [|[o'|s] argv IH].
  - cbn. by intros ?%elem_of_nil.
  - rewrite groups_opt. cbn [snd]. intros [Heq|Hin]%elem_of_cons.
    + injection Heq as -> _. apply elem_of_cons. by left.
    + apply elem_of_cons. right. by apply IH.
  - rewrite groups_arg. cbn [snd]. intros Hin. apply elem_of_cons. right. by apply IH.
Qed.

(** The groups of what precedes an option string are not changed by what
    follows it. *)
Lemma groups_app pre o rest :
  groups (pre ++ Opt o :: rest) =
  ((groups pre).1, (groups pre).2 ++ (groups (Opt o :: rest)).2).
Proof.
  induction pre as [|[o'|s] pre IH].
  - cbn [app]. by rewrite groups_opt.
  - cbn [app]. rewrite !(groups_opt o'), IH. done.
  - cbn [app]. rewrite !(groups_arg s), IH. done.
Qed.

Lemma consume_app p gs1 gs2 st :
  consume p (gs1 ++ gs2) st =
  match consume p gs1 st with
  | inl e => inl e
  | inr st' => consume p gs2 st'
  end.
Proof.
  revert st. induction gs1 as [|g gs1 IH]; intros st; [done|].
  cbn [app consume]. destruct (consume_optional p g st); [done|]. apply IH.
Qed.

Lemma get_checked_help a o s : get_checked a o s <> inl ExitHelp.
Proof.
  unfold get_checked, get_value, check_value.
  destruct (type_ a); [|destruct (py_int s)]; try done;
    destruct (choices a); try done; try case_bool_decide; done.
Qed.

Lemma get_values_help a o args : get_values a o args <> inl ExitHelp.
Proof.
  induction args as [|s args IH]; [done|]. cbn [get_values].
  pose proof (get_checked_help a o s).
  destruct (get_checked a o s) as [[]|]; try done.
  destruct (get_values a o args) as [[]|]; done.
Qed.

(** What taking one option does to the state. *)
Lemma consume_optional_inr p o args st st' :
  consume_optional p (o, args) st = inr st' ->
  (find_action p o = None /\ namespace st' = namespace st /\ seen st' = seen st) \/
  (exists a v, find_action p o = Some a /\
     namespace st' = <[dest a := v]> (namespace st) /\ seen st' = dest a :: seen st).
Proof.
  unfold consume_optional. destruct (find_action p o) as [a|]; [|intros [= <-]; by left].
  intros H. right. exists a.
  destruct (act a) as [[]| |]; try done.
  - destruct args as [|s surplus]; [done|].
    destruct (get_checked a o s) as [|v]; [done|]. injection H as <-. by exists v.
  - destruct (get_values a o args) as [|vs]; [done|]. injection H as <-. by eexists.
  - injection H as <-. by eexists.
Qed.

Lemma consume_optional_help p o args st :
  consume_optional p (o, args) st = inl ExitHelp ->
  exists a, find_action p o = Some a /\ act a = Help.
Proof.
  unfold consume_optional. destruct (find_action p o) as [a|]; [|done].
  intros H. exists a. split; [done|].
  destruct (act a) as [[]| |]; try done.
  - destruct args as [|s surplus]; [done|].
    pose proof (get_checked_help a o s). by destruct (get_checked a o s) as [[]|].
  - pose proof (get_values_help a o args). by destruct (get_values a o args) as [[]|].
Qed.

(** An action is seen only if one of its option strings was given. *)
Lemma consume_seen p gs st st' d :
  consume p gs st = inr st' -> d ∈ seen st' ->
  d ∈ seen st \/
  exists o args a, (o, args) ∈ gs /\ find_action p o = Some a /\ dest a = d.
Proof.
  revert st. induction gs as [|[o args] gs IH]; intros st.
  - intros [= <-]. by left.
  - cbn [consume]. destruct (consume_optional p (o, args) st) as [|st1] eqn:H1; [done|].
    intros H2 Hd. destruct (IH _ H2 Hd) as [Hin|(o' & args' & a & Hin & Hf & Hdest)].
    + apply consume_optional_inr in H1 as [(_ & _ & Hs)|(a & v & Hf & _ & Hs)];
        rewrite Hs in Hin; [by left|].
      apply elem_of_cons in Hin as [->|Hin]; [|by left].
      right. exists o, args, a. split; [apply elem_of_cons; by left|done].
    + right. exists o', args', a. split; [apply elem_of_cons; by right|done].
Qed.

(** The help is shown only if a help option was given. *)
Lemma consume_help p gs st :
  consume p gs st = inl ExitHelp ->
  exists o args a, (o, args) ∈ gs /\ find_action p o = Some a /\ act a = Help.
Proof.
  revert st. induction gs as [|[o args] gs IH]; intros st; [done|].
  cbn [consume]. destruct (consume_optional p (o, args) st) as [e|st1] eqn:H1.
  - intros [= ->]. apply consume_optional_help in H1 as (a & Hf & Ha).
    exists o, args, a. split; [apply elem_of_cons; by left|done].
  - intros (o' & args' & a & Hin & Hf)%IH.
    exists o', args', a. split; [apply elem_of_cons; by right|done].
Qed.

(** An attribute keeps its value unless one of its option strings is given. *)
Lemma consume_untouched p gs st st' d :
  consume p gs st = inr st' ->
  (forall o args a, (o, args) ∈ gs -> find_action p o = Some a -> dest a <> d) ->
  namespace st' !! d = namespace st !! d.
Proof.
  revert st. induction gs as [|[o args] gs IH]; intros st.
  - by intros [= <-].
  - cbn [consume]. destruct (consume_optional p (o, args) st) as [|st1] eqn:H1; [done|].
    intros H2 Hgs. rewrite (IH _ H2).
    + apply consume_optional_inr in H1 as [(_ & -> & _)|(a & v & Hf & -> & _)]; [done|].
      apply lookup_insert_ne. apply (Hgs o args a); [|done]. apply elem_of_cons; by left.
    + intros o' args' a Hin. apply (Hgs o' args' a). apply elem_of_cons; by right.
Qed.

Lemma consume_optional_value p o args st st' :
  consume_optional p (o, args) st = inr st' ->
  (find_action p o = None /\ namespace st' = namespace st /\ seen st' = seen st) \/
  (exists a v, find_action p o = Some a /\ produced a v /\
     namespace st' = <[dest a := v]> (namespace st) /\ seen st' = dest a :: seen st).
Proof.
  unfold consume_optional. destruct (find_action p o) as [a|]; [|intros [= <-]; by left].
  intros H. right. exists a. unfold produced.
  destruct (act a) as [[]| |]; try done.
  - destruct args as [|s surplus]; [done|].
    destruct (get_checked a o s) as [|v] eqn:Hv; [done|]. injection H as <-.
    exists v. repeat split; eauto.
  - destruct (get_values a o args) as [|vs] eqn:Hv; [done|]. injection H as <-.
    exists (PyList vs). repeat split; eauto.
  - injection H as <-. by exists (PyBool true).
Qed.

(** A value of the namespace is the one it started with or one an option of
    the command line produced. *)
Lemma consume_value p gs st st' d v :
  consume p gs st = inr st' -> namespace st' !! d = Some v ->
  namespace st !! d = Some v \/
  exists o args a, (o, args) ∈ gs /\ find_action p o = Some a /\ dest a = d /\ produced a v.
Proof.
  revert st. induction gs as [|[o args] gs IH]; intros st.
  - intros [= <-]. by left.
  - cbn [consume]. destruct (consume_optional p (o, args) st) as [|st1] eqn:H1; [done|].
    intros H2 Hv. destruct (IH _ H2 Hv) as [Hin|(o' & args' & a & Hin & Hf & Hd & Hpr)].
    + apply consume_optional_value in H1 as [(_ & Hns & _)|(a & v0 & Hf & Hpr & Hns & _)];
        rewrite Hns in Hin; [by left|].
      destruct (decide (dest a = d)) as [Hd|Hd].
      * subst d. rewrite lookup_insert_eq in Hin. injection Hin as ->.
        right. exists o, args, a. split; [apply elem_of_cons; by left|done].
      * rewrite lookup_insert_ne in Hin by done. by left.
    + right. exists o', args', a. split; [apply elem_of_cons; by right|done].
Qed.

(** The attribute of an action that was seen holds a value the action
    produced. *)
Lemma consume_seen_value p gs st st' :
  (forall d, d ∈ seen st -> exists a v o,
     find_action p o = Some a /\ dest a = d /\ produced a v /\ namespace st !! d = Some v) ->
  consume p gs st = inr st' ->
  forall d, d ∈ seen st' -> exists a v o,
    find_action p o = Some a /\ dest a = d /\ produced a v /\ namespace st' !! d = Some v.
Proof.
  revert st. induction gs as [|[o args] gs IH]; intros st Hst.
  - by intros [= <-].
  - cbn [consume]. destruct (consume_optional p (o, args) st) as [|st1] eqn:H1; [done|].
    apply IH. intros d Hd.
    apply consume_optional_value in H1 as [(_ & Hns & Hs)|(a & v0 & Hf & Hpr & Hns & Hs)];
      rewrite Hns; rewrite Hs in Hd; [by apply Hst|].
    destruct (decide (dest a = d)) as [Heq|Hne].
    + exists a, v0, o. subst d. by rewrite lookup_insert_eq.
    + apply elem_of_cons in Hd as [->|Hd]; [done|].
      destruct (Hst d Hd) as (a' & v' & o' & ?). exists a', v', o'.
      by rewrite lookup_insert_ne.
Qed.

Lemma consume_keeps p gs st st' d :
  consume p gs st = inr st' -> is_Some (namespace st !! d) -> is_Some (namespace st' !! d).
Proof.
  revert st. induction gs as [|[o args] gs IH]; intros st.
  - by intros [= <-].
  - cbn [consume]. destruct (consume_optional p (o, args) st) as [|st1] eqn:H1; [done|].
    intros H2 Hd. apply (IH _ H2).
    apply consume_optional_value in H1 as [(_ & -> & _)|(a & v0 & _ & _ & -> & _)]; [done|].
    apply lookup_insert_is_Some. destruct (decide (dest a = d)); auto.
Qed.

(** ** Facts about the parser of the script *)

Ltac parser_cases H :=
  apply find_action_Some in H as [?Hin ?Ho];
  unfold parser in Hin;
  repeat (apply elem_of_cons in Hin as [->|Hin]);
  [ .. | by apply elem_of_nil in Hin ];
  cbn [option_strings option_ flag dest act] in *.

Ltac option_cases Ho :=
  repeat (apply elem_of_cons in Ho as [->|Ho]); [ .. | by apply elem_of_nil in Ho ].

Lemma parser_identifier o a :
  find_action parser o = Some a -> dest a = "db_instance_identifier" ->
  o = "--db-instance-identifier" \/ o = "-i".
Proof.
  intros H Hd. parser_cases H; try discriminate Hd. option_cases Ho; auto.
Qed.

Lemma parser_help o a :
  find_action parser o = Some a -> act a = Help -> o = "-h" \/ o = "--help".
Proof.
  intros H Hd. parser_cases H; try discriminate Hd. option_cases Ho; auto.
Qed.

Lemma parser_password o a :
  find_action parser o = Some a -> dest a = "master_user_password" ->
  o = "--master-user-password".
Proof.
  intros H Hd. parser_cases H; try discriminate Hd. option_cases Ho; auto.
Qed.

Lemma parser_security_groups o a :
  find_action parser o = Some a -> dest a = "vpc_security_group_ids" ->
  o = "--vpc-security-group-ids".
Proof.
  intros H Hd. parser_cases H; try discriminate Hd. option_cases Ho; auto.
Qed.

Lemma parser_subnet_group o a :
  find_action parser o = Some a -> dest a = "db_subnet_group_name" ->
  o = "--db-subnet-group-name".
Proof.
  intros H Hd. parser_cases H; try discriminate Hd. option_cases Ho; auto.
Qed.

Lemma missing_seen st :
  missing parser st = [] -> "db_instance_identifier" ∈ seen st.
Proof.
  unfold missing, parser, option_, flag.
  cbn [List.filter required dest andb negb].
  case_bool_decide; [done|]. cbn. done.
Qed.

(** A parse that returns has seen the identifier on the command line. *)
Lemma parse_identifier argv args :
  parse parser argv = inr args ->
  Opt "--db-instance-identifier" ∈ argv \/ Opt "-i" ∈ argv.
Proof.
  unfold parse. destruct (groups argv) as [lead gs] eqn:Hg.
  destruct (consume parser gs _) as [|st] eqn:Hc; [done|].
  destruct (missing parser st) eqn:Hm; [|done]. intros _.
  apply missing_seen in Hm.
  destruct (consume_seen _ _ _ _ _ Hc Hm) as [Hin|(o & l & a & Hin & Hf & Hd)].
  - cbn in Hin. by apply elem_of_nil in Hin.
  - assert (Opt o ∈ argv) as Ho by (apply (groups_options argv o l); by rewrite Hg).
    by destruct (parser_identifier o a Hf Hd) as [<-|<-]; [left|right].
Qed.

(** A parse that shows the help has seen a help option. *)
Lemma parse_help argv :
  parse parser argv = inl ExitHelp -> Opt "-h" ∈ argv \/ Opt "--help" ∈ argv.
Proof.
  unfold parse. destruct (groups argv) as [lead gs] eqn:Hg.
  destruct (consume parser gs _) as [e|st] eqn:Hc.
  - intros [= ->]. apply consume_help in Hc as (o & l & a & Hin & Hf & Ha).
    assert (Opt o ∈ argv) as Ho by (apply (groups_options argv o l); by rewrite Hg).
    by destruct (parser_help o a Hf Ha) as [<-|<-]; [left|right].
  - destruct (missing parser st); [|done]. by destruct (extras st).
Qed.

(** An attribute whose option strings are not on the command line has its
    default. *)
Lemma parse_omitted argv args d :
  parse parser argv = inr args ->
  (forall o a, Opt o ∈ argv -> find_action parser o = Some a -> dest a <> d) ->
  args !! d = defaults parser !! d.
Proof.
  unfold parse. destruct (groups argv) as [lead gs] eqn:Hg.
  destruct (consume parser gs _) as [|st] eqn:Hc; [done|].
  destruct (missing parser st); [|done]. destruct (extras st); [|done].
  intros [= <-] Hno. rewrite (consume_untouched _ _ _ _ d Hc); [done|].
  intros o l a Hin. apply Hno. apply (groups_options argv o l). by rewrite Hg.
Qed.

Lemma parse_cases argv args :
  parse parser argv = inr args ->
  exists st,
    consume parser (groups argv).2
      {| namespace := defaults parser; seen := []; extras := (groups argv).1 |} = inr st /\
    missing parser st = [] /\ extras st = [] /\ args = namespace st.
Proof.
  unfold parse. destruct (groups argv) as [lead gs].
  destruct (consume parser gs _) as [|st] eqn:Hc; [done|].
  destruct (missing parser st) eqn:Hm; [|done]. destruct (extras st) eqn:He; [|done].
  intros [= <-]. by exists st.
Qed.

(** [parse_args] sets every attribute the script reads. *)
Lemma parse_sets_attributes argv args d :
  parse parser argv = inr args -> d ∈ attributes -> is_Some (args !! d).
Proof.
  intros (st & Hc & _ & _ & ->)%parse_cases Hd.
  apply (consume_keeps _ _ _ _ d Hc). cbn [namespace].
  unfold attributes in Hd.
  repeat (apply elem_of_cons in Hd as [->|Hd]; [eexists; by vm_compute|]).
  by apply elem_of_nil in Hd.
Qed.

(** The engine of a parse that returns is one of the choices. *)
Lemma parse_engine argv args :
  parse parser argv = inr args ->
  exists s, args !! "engine" = Some (PyStr s) /\ s ∈ engine_choices.
Proof.
  intros Hp. pose proof Hp as (st & Hc & _ & _ & ->)%parse_cases.
  destruct (parse_sets_attributes argv (namespace st) "engine" Hp) as [v Hv].
  { unfold attributes. do 2 apply list_elem_of_further. apply list_elem_of_here. }
  destruct (consume_value _ _ _ _ _ _ Hc Hv) as [Hd|(o & l & a & _ & Hf & Hd & Hpr)].
  - cbn [namespace] in Hd. vm_compute in Hd. injection Hd as <-.
    exists "postgres". split; [done|]. apply list_elem_of_here.
  - parser_cases Hf; try discriminate Hd. unfold produced in Hpr. cbn [act option_] in Hpr.
    destruct Hpr as (o' & s & Hs). unfold get_checked, get_value, check_value in Hs.
    cbn [type_ choices option_] in Hs. case_bool_decide; [|done].
    injection Hs as <-. by exists s.
Qed.

(** The identifier of a parse that returns is a string of the command line. *)
Lemma parse_identifier_value argv args :
  parse parser argv = inr args ->
  exists s, args !! "db_instance_identifier" = Some (PyStr s).
Proof.
  intros Hp. pose proof Hp as (st & Hc & Hm & _ & ->)%parse_cases.
  apply missing_seen in Hm.
  assert (exists a v o, find_action parser o = Some a /\
            dest a = "db_instance_identifier" /\ produced a v /\
            namespace st !! "db_instance_identifier" = Some v)
    as (a & v & o & Hf & Hd & Hpr & Hv).
  { eapply consume_seen_value; [|exact Hc|exact Hm].
    intros d H. cbn [seen] in H. by apply elem_of_nil in H. }
  parser_cases Hf; try discriminate Hd. unfold produced in Hpr. cbn [act option_] in Hpr.
  destruct Hpr as (o' & s & Hs). unfold get_checked, get_value, check_value in Hs.
  cbn [type_ choices option_] in Hs. injection Hs as <-. by exists s.
Qed.

(** ** Argument parsing comes first *)

Lemma exits_offline m : usage_exit m \/ help_exit m -> offline (trace_of m).
Proof.
  intros [[e ->]| ->]; unfold offline, trace_of; cbn [fst]; by repeat constructor.
Qed.

Lemma main_parse_stop w argv :
  (forall args, parse parser argv <> inr args) ->
  usage_exit (main w argv) \/ (asks_help argv /\ help_exit (main w argv)).
Proof.
  intros Hno. unfold main, parse_args, argparse.parse_args.
  destruct (parse parser argv) as [[|e]|args] eqn:Hp.
  - right. split; [by apply parse_help|]. by run_simpl.
  - left. exists e. by run_simpl.
  - by destruct (Hno args).
Qed.

(** C3, as the spec states it, fails when the help is asked for: with [-h]
    alone the identifier is omitted, and the script prints the help and ends
    with status 0, which is no usage error. *)
Lemma identifier_omitted_help_counterexample :
  omits_identifier [Opt "-h"] /\
  (forall w, main w [Opt "-h"] = ([PrintHelp], Exits 0)) /\
  ~ (forall w argv, omits_identifier argv -> usage_exit (main w argv)).
Proof.
  assert (omits_identifier [Opt "-h"]) as Homit.
  { split; intros [=]%list_elem_of_singleton. }
  assert (forall w, main w [Opt "-h"] = ([PrintHelp], Exits 0)) as Hrun.
  { intros w. unfold main, parse_args, argparse.parse_args.
    replace (parse parser [Opt "-h"]) with (inl ExitHelp : stop + Namespace)
      by (vm_compute; reflexivity).
    by run_simpl. }
  split; [done|]. split; [done|].
  intros H. destruct (H (good_world 0) _ Homit) as [e He].
  rewrite Hrun in He. discriminate He.
Qed.

(** C3 (amended): when the command line omits the instance identifier, the
    script ends inside argument parsing, before any session, client or call
    to the provider: with a usage error and status 2, or, only if a help
    option is on the command line, with the help and status 0. *)
Theorem identifier_omitted_exits_in_parsing w argv :
  omits_identifier argv ->
  (usage_exit (main w argv) \/ (asks_help argv /\ help_exit (main w argv))) /\
  offline (trace_of (main w argv)) /\
  (~ asks_help argv -> usage_exit (main w argv) /\ run w argv = 2).
Proof.
  intros [Hlong Hshort].
  assert (usage_exit (main w argv) \/ (asks_help argv /\ help_exit (main w argv))) as H.
  { apply main_parse_stop. intros args Hp.
    by destruct (parse_identifier argv args Hp). }
  split; [done|]. split.
  - apply exits_offline. tauto.
  - intros Hno. destruct H as [H|[H _]]; [|done]. split; [done|].
    destruct H as [e He]. unfold run. by rewrite He.
Qed.

Lemma identifier_omitted_exits_in_parsing_witness :
  usage_exit (main (good_world 0) [Opt "--engine"; Arg "mysql"]) /\
  run (good_world 0) [Opt "--engine"; Arg "mysql"] = 2.
Proof.
  apply (identifier_omitted_exits_in_parsing (good_world 0) [Opt "--engine"; Arg "mysql"]).
  - split; intros H; repeat (apply elem_of_cons in H as [H|H]; [discriminate H|]);
      by apply elem_of_nil in H.
  - intros [H|H]; repeat (apply elem_of_cons in H as [H|H]; [discriminate H|]);
      by apply elem_of_nil in H.
Defined.

(** The parser rejects an engine that is not one of the choices when it
    reaches it. *)
Lemma engine_rejected v args st :
  v ∉ engine_choices ->
  consume_optional parser ("--engine", v :: args) st =
    inl (ExitError (InvalidChoice "--engine" v)).
Proof.
  intros Hv. unfold consume_optional.
  replace (find_action parser "--engine")
    with (Some (option_ ["--engine"] "engine" Str (Some engine_choices) false
                  (PyStr "postgres"))) by (vm_compute; reflexivity).
  cbn [act option_]. unfold get_checked, get_value, check_value.
  cbn [type_ choices option_]. by rewrite bool_decide_eq_false_2.
Qed.

Lemma parse_engine_outside pre v post :
  v ∉ engine_choices ->
  (exists e, parse parser (pre ++ Opt "--engine" :: Arg v :: post) = inl (ExitError e)) \/
  (asks_help pre /\ parse parser (pre ++ Opt "--engine" :: Arg v :: post) = inl ExitHelp).
Proof.
  intros Hv. unfold parse.
  rewrite groups_app, groups_opt, groups_arg. cbn [fst snd].
  rewrite consume_app.
  destruct (consume parser (groups pre).2 _) as [[|e]|st] eqn:Hc.
  - right. split; [|done].
    apply consume_help in Hc as (o & l & a & Hin & Hf & Ha).
    apply groups_options in Hin.
    by destruct (parser_help o a Hf Ha) as [->| ->]; [left|right].
  - left. by exists e.
  - left. cbn [consume]. rewrite engine_rejected by done. by eexists.
Qed.

(** C4, as the spec states it, fails when the help is asked for first: the
    engine [oracle] is not one of the choices, yet after [-h] the script
    prints the help and ends with status 0 instead of rejecting it. *)
Lemma engine_outside_help_counterexample :
  ("oracle" ∉ engine_choices) /\
  (forall w, main w [Opt "-h"; Opt "--engine"; Arg "oracle"] = ([PrintHelp], Exits 0)) /\
  ~ (forall w pre v post, v ∉ engine_choices ->
       usage_exit (main w (pre ++ Opt "--engine" :: Arg v :: post))).
Proof.
  assert ("oracle" ∉ engine_choices) as Hv.
  { intros H. repeat (apply elem_of_cons in H as [H|H]; [discriminate H|]).
    by apply elem_of_nil in H. }
  assert (forall w, main w [Opt "-h"; Opt "--engine"; Arg "oracle"] = ([PrintHelp], Exits 0))
    as Hrun.
  { intros w. unfold main, parse_args, argparse.parse_args.
    replace (parse parser [Opt "-h"; Opt "--engine"; Arg "oracle"])
      with (inl ExitHelp : stop + Namespace) by (vm_compute; reflexivity).
    by run_simpl. }
  split; [done|]. split; [done|].
  intros H. destruct (H (good_world 0) [Opt "-h"] "oracle" [] Hv) as [e He].
  cbn [app] in He. rewrite Hrun in He. discriminate He.
Qed.

(** A run that reaches out to the provider has parsed its command line. *)
Lemma online_parsed w argv :
  ~ offline (trace_of (main w argv)) -> exists args, parse parser argv = inr args.
Proof.
  intros Hon. destruct (parse parser argv) as [stop|args] eqn:Hp; [|by exists args].
  destruct Hon. apply exits_offline.
  destruct (main_parse_stop w argv) as [H|[_ H]]; [congruence|by left|by right].
Qed.

(** C4 (amended): when the command line gives [--engine] a value outside the
    five choices, the script ends inside argument parsing, before any
    session, client or call to the provider: with a usage error and status 2,
    or, only if a help option comes before the engine, with the help and
    status 0.  And in every run that does reach out to the provider, the
    engine is one of the five choices. *)
Theorem engine_outside_exits_in_parsing w argv :
  (forall pre v post,
     argv = pre ++ Opt "--engine" :: Arg v :: post -> v ∉ engine_choices ->
     (usage_exit (main w argv) \/ (asks_help pre /\ help_exit (main w argv))) /\
     offline (trace_of (main w argv)) /\
     (~ asks_help pre -> usage_exit (main w argv) /\ run w argv = 2)) /\
  (~ offline (trace_of (main w argv)) ->
   exists args s,
     parse parser argv = inr args /\
     args !! "engine" = Some (PyStr s) /\ s ∈ engine_choices).
Proof.
  split.
  - intros pre v post -> Hv.
    set (argv := pre ++ Opt "--engine" :: Arg v :: post).
    assert (usage_exit (main w argv) \/ (asks_help pre /\ help_exit (main w argv))) as H.
    { unfold main, parse_args, argparse.parse_args.
      destruct (parse_engine_outside pre v post Hv) as [[e He]|[Hh He]];
        subst argv; rewrite He; [left; exists e|right; split; [done|]]; by run_simpl. }
    split; [done|]. split.
    + apply exits_offline. tauto.
    + intros Hno. destruct H as [H|[H _]]; [|done]. split; [done|].
      destruct H as [e He]. unfold run. by rewrite He.
  - intros [args Hp]%online_parsed.
    destruct (parse_engine argv args Hp) as (s & Hs & Hin). by exists args, s.
Qed.

Lemma engine_outside_exits_in_parsing_witness :
  usage_exit (main (good_world 0) [Opt "-i"; Arg "db1"; Opt "--engine"; Arg "oracle"]) /\
  run (good_world 0) [Opt "-i"; Arg "db1"; Opt "--engine"; Arg "oracle"] = 2.
Proof.
  apply (proj1 (engine_outside_exits_in_parsing (good_world 0)
                  [Opt "-i"; Arg "db1"; Opt "--engine"; Arg "oracle"])
           [Opt "-i"; Arg "db1"] "oracle" []).
  - reflexivity.
  - intros H. repeat (apply elem_of_cons in H as [H|H]; [discriminate H|]).
    by apply elem_of_nil in H.
  - intros [H|H]; repeat (apply elem_of_cons in H as [H|H]; [discriminate H|]);
      by apply elem_of_nil in H.
Defined.

(** ** Reading runs *)

(** Splitting a run of [main] into the runs of the functions it calls. *)
Ltac invert_runs :=
  repeat match goal with
  | H : create_run _ _ (_, _) |- _ => inversion H; subst; clear H
  | H : wait_run _ _ _ (_, _) |- _ => inversion H; subst; clear H
  | H : describe_run _ _ (_, _) |- _ => inversion H; subst; clear H
  | H : password_run _ _ _ _ |- _ => inversion H; subst; clear H
  | H : botocore.wait _ _ _ _ = (?ta, _) |- _ =>
      is_var ta;
      let tb := fresh "tb" in
      let Hall := fresh "Hall" in
      let Hn := fresh "Hn" in
      let Hx := fresh "Hx" in
      pose proof (wait_trace _ _ _ _ _ _ H) as (tb & -> & Hall & Hn & Hx)
  end.

(** Where an event of a trace can be. *)
Ltac mem H :=
  repeat first
    [ apply elem_of_app in H as [H|H]
    | apply elem_of_cons in H as [H|H]
    | by apply elem_of_nil in H
    | match goal with
      | Hall : Forall _ ?tb |- _ =>
          match type of H with _ ∈ tb =>
            apply (proj1 (Forall_forall _ _) Hall) in H as [H|H]
          end
      end
    | discriminate H ].


Ltac clash :=
  match goal with
  | H1 : ?r = Fails (ClientError ?m), H2 : ?r = Fails ?e, H3 : uncaught_by_create ?e |- _ =>
      rewrite H1 in H2; injection H2 as <-; by destruct (H3 m)
  | H1 : ?r = _, H2 : ?r = _ |- _ => congruence
  end.

(** The event at a given place in the trace of a run on a given command line
    and world. *)
Ltac in_trace i :=
  apply (list_elem_of_lookup_2 _ i); vm_compute; reflexivity.

(** ** Where the requests of a run come from *)

Lemma prompts_waiter params delay tb :
  Forall (fun e => e = StatusCheck params \/ e = Sleep delay) tb -> prompts tb = [].
Proof.
  induction 1 as [|e tb [->| ->] _ IH]; [done|exact IH|exact IH].
Qed.

Lemma operations_waiter params delay tb :
  Forall (fun e => e = StatusCheck params \/ e = Sleep delay) tb -> operations tb = [].
Proof.
  induction 1 as [|e tb [->| ->] _ IH]; [done|exact IH|exact IH].
Qed.

Ltac prompts_simpl :=
  unfold prompts;
  repeat first
    [ rewrite List.filter_app
    | progress cbn [List.filter is_getpass app described creating waiting connecting]
    | match goal with Hall : Forall _ ?tb |- _ =>
        change (List.filter is_getpass tb) with (prompts tb);
        rewrite (prompts_waiter _ _ _ Hall)
      end ].

Ltac operations_simpl :=
  unfold operations;
  repeat first
    [ rewrite omap_app
    | progress cbn [omap list_omap operation app described creating waiting connecting]
    | match goal with Hall : Forall _ ?tb |- _ =>
        change (omap operation tb) with (operations tb);
        rewrite (operations_waiter _ _ _ Hall)
      end ].

Lemma create_run_calls w args tc r e :
  create_run w args (tc, r) -> e ∈ tc ->
  e = Getpass password_prompt \/ (exists l, e = Print l) \/
  exists pw, e = Call "create_db_instance" (build_params args pw).
Proof.
  intros Hrun Hin. unfold creating in *. invert_runs; mem Hin; subst; eauto.
Qed.

Lemma wait_run_calls w identifier timeout_minutes tw r e :
  wait_run w identifier timeout_minutes (tw, r) -> e ∈ tw ->
  (forall m p, e <> Call m p) /\ (forall s, e <> Getpass s).
Proof.
  intros Hrun Hin. unfold waiting in *. invert_runs; mem Hin; by subst.
Qed.

(** A create request in a run is the one of [create_db_instance], made with
    the parameters built from the parsed arguments and the password. *)
Lemma create_call_inv w argv params :
  Call "create_db_instance" params ∈ trace_of (main w argv) ->
  exists args tp pw after,
    parse parser argv = inr args /\
    password_run w args tp pw /\
    params = build_params args pw /\
    trace_of (main w argv) = connecting args ++ tp ++ creating args params ++ after /\
    prompts after = [].
Proof.
  intros Hin.
  destruct (main_runs w argv); unfold trace_of, connecting, creating, waiting, described in *;
    cbn [fst] in *; invert_runs; mem Hin; injection Hin as ->;
    (eexists args, _, _, _; split; [done|]; split;
     [ first [ by apply password_given | by eapply password_prompted ] |];
     split; [reflexivity|]; split; [cbn [app]; reflexivity|]);
    prompts_simpl; done.
Qed.

(** When the provider refuses the create request, the run ends there. *)
Lemma create_refused_run w argv params message :
  Call "create_db_instance" params ∈ trace_of (main w argv) ->
  create_db_instance_reply w params = Fails (ClientError message) ->
  exists before,
    main w argv =
      (before ++ [Call "create_db_instance" params;
                  Print [PyStr "Error creating DB instance:"; opt_str message]],
       Exits 1) /\
    Forall (fun e => request_event e = false) before.
Proof.
  intros Hin Hreply.
  destruct (main_runs w argv); unfold trace_of, connecting, creating, waiting, described in *;
    cbn [fst] in Hin; invert_runs; mem Hin;
    injection Hin as ->; try clash.
  all: match goal with H : _ = Fails (ClientError ?m) |- _ =>
         rewrite Hreply in H; injection H as <- end.
  - eexists [_; _; _]. cbn [app]. split; [done|]. by repeat constructor.
  - eexists [_; _; _; _]. cbn [app]. split; [done|]. by repeat constructor.
Qed.

(** A describe request in a run is the one of [describe_endpoint], made after
    a create request that was accepted and a wait that succeeded. *)
Lemma describe_call_inv w argv params :
  Call "describe_db_instances" params ∈ trace_of (main w argv) ->
  exists args tc tw td r,
    parse parser argv = inr args /\
    params = identified (args !!! "db_instance_identifier") /\
    create_run w args (tc, Returns true) /\
    wait_run w (args !!! "db_instance_identifier") default_timeout_minutes (tw, Returns true) /\
    describe_run w (args !!! "db_instance_identifier") (td, r) /\
    main w argv =
      ((connecting args ++ tc ++ tw) ++ td,
       match r with Returns _ => Returns tt | Raises e => Raises e | Exits c => Exits c end).
Proof.
  intros Hin.
  destruct (main_runs w argv) as [ | | | |args tc e Hp Hc|args tc Hp Hc
    |args tc tw e Hp Hc Hw|args tc tw Hp Hc Hw|args tc tw td e Hp Hc Hw Hd
    |args tc tw td result Hp Hc Hw Hd];
    unfold trace_of in Hin; cbn [fst] in Hin.
  1-4: unfold connecting in Hin; by mem Hin.
  all: assert (forall x, x ∈ connecting args ++ tc ->
                 forall p, x <> Call "describe_db_instances" p) as Hpre
    by (intros x Hx p ->; unfold connecting in Hx; mem Hx;
        by destruct (create_run_calls _ _ _ _ _ Hc Hx) as [?|[[? ?]|[? ?]]]).
  1-2: destruct (Hpre _ Hin params eq_refl).
  all: assert (forall x, x ∈ tw -> forall p, x <> Call "describe_db_instances" p) as Hmid
    by (intros x Hx p ->; destruct (wait_run_calls _ _ _ _ _ _ Hw Hx) as [Hno _];
        by destruct (Hno _ _ eq_refl)).
  1-2: rewrite app_assoc in Hin; apply elem_of_app in Hin as [Hin|Hin];
       [destruct (Hpre _ Hin params eq_refl)|destruct (Hmid _ Hin params eq_refl)].
  all: assert (params = identified (args !!! "db_instance_identifier")) as ->
    by (rewrite !app_assoc in Hin; apply elem_of_app in Hin as [Hin|Hin];
        [ apply elem_of_app in Hin as [Hin|Hin];
          [destruct (Hpre _ Hin params eq_refl)|destruct (Hmid _ Hin params eq_refl)]
        | unfold described in *; invert_runs; mem Hin; by injection Hin ]).
  - exists args, tc, tw, td, (Raises e). by rewrite <- !app_assoc.
  - exists args, tc, tw, td, (Returns result). by rewrite <- !app_assoc.
Qed.

(** The describe request is reached only after a create request that was
    accepted and a wait that succeeded. *)
Lemma describe_reached w args tc tw :
  create_run w args (tc, Returns true) ->
  wait_run w (args !!! "db_instance_identifier") default_timeout_minutes (tw, Returns true) ->
  create_succeeded w (connecting args ++ tc ++ tw) /\
  wait_succeeded w (connecting args ++ tc ++ tw).
Proof.
  intros Hc Hw. split.
  - inversion Hc as [tp pw resp Hpw Hreply| | |]; subst.
    exists (build_params args pw), resp. split; [|done].
    apply elem_of_app. right. apply elem_of_app. left.
    apply elem_of_app. right. apply list_elem_of_further, list_elem_of_here.
  - inversion Hw as [ta Hwait| | |]; subst.
    exists (identified (args !!! "db_instance_identifier")), 30,
           (max_attempts default_timeout_minutes).
    split; [|by rewrite Hwait].
    destruct (wait_trace _ _ _ _ _ _ Hwait) as (tb & -> & _).
    apply elem_of_app. right. apply elem_of_app. right.
    apply list_elem_of_further, list_elem_of_further, list_elem_of_here.
Qed.

(** ** The create request *)

(** C2: when the provider answers the create request with a client error,
    the script prints the provider's message right after the request and
    ends with status 1.  Nothing follows the request but that message: no
    waiter is obtained or started and no further request is made; and no
    request came before it. *)
Theorem create_client_error_exits_1 w argv params message :
  Call "create_db_instance" params ∈ trace_of (main w argv) ->
  create_db_instance_reply w params = Fails (ClientError message) ->
  exists before,
    main w argv =
      (before ++ [Call "create_db_instance" params;
                  Print [PyStr "Error creating DB instance:"; opt_str message]],
       Exits 1) /\
    Forall (fun e => request_event e = false) before /\
    run w argv = 1.
Proof.
  intros Hin Hreply.
  destruct (create_refused_run w argv params message Hin Hreply) as (before & Hrun & Hreq).
  exists before. split; [done|]. split; [done|]. unfold run. by rewrite Hrun.
Qed.

Lemma create_client_error_exits_1_witness :
  exists before,
    main refusing_world [Opt "-i"; Arg "db1"] =
      (before ++ [Call "create_db_instance"
                    (build_params (parsed [Opt "-i"; Arg "db1"]) (PyStr "s3cret"));
                  Print [PyStr "Error creating DB instance:";
                         PyStr "DB instance already exists"]],
       Exits 1) /\
    Forall (fun e => request_event e = false) before /\
    run refusing_world [Opt "-i"; Arg "db1"] = 1.
Proof.
  apply (create_client_error_exits_1 refusing_world [Opt "-i"; Arg "db1"]
           (build_params (parsed [Opt "-i"; Arg "db1"]) (PyStr "s3cret"))
           (Some "DB instance already exists")).
  - in_trace 4%nat.
  - reflexivity.
Defined.

(** ** The describe request *)

(** C6: when the describe request returns the instance, which only happens
    after the create request was accepted and the wait succeeded, the script
    prints the address and the port of the instance's endpoint ([None] for
    what the response does not hold) and runs to its end, status 0. *)
Theorem endpoint_printed w argv params resp inst rest :
  Call "describe_db_instances" params ∈ trace_of (main w argv) ->
  describe_db_instances_reply w params = Ok resp ->
  DBInstances resp = inst :: rest ->
  exists before,
    main w argv =
      (before ++ [Call "describe_db_instances" params;
                  Print [PyStr "DB instance available."];
                  Print [PyStr "Endpoint:"; address_of inst];
                  Print [PyStr "Port:"; port_of inst]],
       Returns tt) /\
    create_succeeded w before /\
    wait_succeeded w before /\
    run w argv = 0.
Proof.
  intros Hin Hreply Hinst.
  destruct (describe_call_inv w argv params Hin)
    as (args & tc & tw & td & r & Hp & -> & Hc & Hw & Hd & Hrun).
  destruct (describe_reached w args tc tw Hc Hw) as [Hacc Hsucc].
  exists (connecting args ++ tc ++ tw). unfold run. rewrite Hrun.
  inversion Hd; subst; try congruence.
  match goal with H : _ = Ok ?resp0 |- _ => rewrite Hreply in H; injection H as <- end.
  match goal with H : DBInstances resp = _ |- _ => rewrite Hinst in H; injection H as <- <- end.
  done.
Qed.

Lemma endpoint_printed_witness :
  exists before,
    main (good_world 2) [Opt "-i"; Arg "db1"] =
      (before ++ [Call "describe_db_instances" (identified (PyStr "db1"));
                  Print [PyStr "DB instance available."];
                  Print [PyStr "Endpoint:"; PyStr "db.example.org"];
                  Print [PyStr "Port:"; PyInt 5432]],
       Returns tt) /\
    create_succeeded (good_world 2) before /\
    wait_succeeded (good_world 2) before /\
    run (good_world 2) [Opt "-i"; Arg "db1"] = 0.
Proof.
  apply (endpoint_printed (good_world 2) [Opt "-i"; Arg "db1"]
           (identified (PyStr "db1"))
           {| DBInstances := [ {| DBInstanceStatus := Some "available";
                                  Endpoint := Some {| Address := Some "db.example.org";
                                                      Port := Some 5432 |} |} ] |}
           {| DBInstanceStatus := Some "available";
              Endpoint := Some {| Address := Some "db.example.org"; Port := Some 5432 |} |}
           []).
  - in_trace 14%nat.
  - reflexivity.
  - reflexivity.
Defined.

(** C9: when the describe request, reached after an accepted create request
    and a successful wait, is answered by a client error, the script prints
    the provider's message, [describe_endpoint] returns [(None, None)], and
    the script runs to its end, status 0. *)
Theorem describe_client_error_exits_0 w argv params message :
  Call "describe_db_instances" params ∈ trace_of (main w argv) ->
  describe_db_instances_reply w params = Fails (ClientError message) ->
  exists before args,
    parse parser argv = inr args /\
    params = identified (args !!! "db_instance_identifier") /\
    main w argv =
      (before ++ [Call "describe_db_instances" params;
                  Print [PyStr "Error describing DB instance:"; opt_str message]],
       Returns tt) /\
    outcome_of (describe_endpoint w (args !!! "db_instance_identifier")) =
      Returns (PyNone, PyNone) /\
    create_succeeded w before /\
    wait_succeeded w before /\
    run w argv = 0.
Proof.
  intros Hin Hreply.
  destruct (describe_call_inv w argv params Hin)
    as (args & tc & tw & td & r & Hp & -> & Hc & Hw & Hd & Hrun).
  destruct (describe_reached w args tc tw Hc Hw) as [Hacc Hsucc].
  exists (connecting args ++ tc ++ tw), args. unfold run. rewrite Hrun.
  pose proof (describe_endpoint_run w (args !!! "db_instance_identifier")) as Hd'.
  inversion Hd; subst; try congruence; try clash.
  match goal with H : _ = Fails (ClientError ?m) |- _ =>
    rewrite Hreply in H; injection H as <- end.
  repeat split; try done.
  inversion Hd'; subst; try congruence; try clash.
  done.
Qed.

Lemma describe_client_error_exits_0_witness :
  exists before args,
    parse parser [Opt "-i"; Arg "db1"] = inr args /\
    identified (PyStr "db1") = identified (args !!! "db_instance_identifier") /\
    main undescribed_world [Opt "-i"; Arg "db1"] =
      (before ++ [Call "describe_db_instances" (identified (PyStr "db1"));
                  Print [PyStr "Error describing DB instance:";
                         PyStr "DBInstance db1 not found"]],
       Returns tt) /\
    outcome_of (describe_endpoint undescribed_world (args !!! "db_instance_identifier")) =
      Returns (PyNone, PyNone) /\
    create_succeeded undescribed_world before /\
    wait_succeeded undescribed_world before /\
    run undescribed_world [Opt "-i"; Arg "db1"] = 0.
Proof.
  apply (describe_client_error_exits_0 undescribed_world [Opt "-i"; Arg "db1"]
           (identified (PyStr "db1")) (Some "DBInstance db1 not found")).
  - in_trace 10%nat.
  - reflexivity.
Defined.

(** ** Exit codes and the order of operations *)

Lemma creates_waiter params delay tb :
  Forall (fun e => e = StatusCheck params \/ e = Sleep delay) tb ->
  List.filter is_create tb = [].
Proof.
  induction 1 as [|e tb [->| ->] _ IH]; [done|exact IH|exact IH].
Qed.

Ltac creates_simpl :=
  repeat first
    [ rewrite List.filter_app
    | progress cbn [List.filter is_create app described creating waiting connecting
                    List.length]
    | rewrite String.eqb_refl
    | progress change (String.eqb "describe_db_instances" "create_db_instance") with false
    | match goal with Hall : Forall _ ?tb |- _ =>
        rewrite (creates_waiter _ _ _ Hall)
      end ].


(** The operations of a run are an initial part of the workflow. *)
Lemma run_operations w argv :
  operations (trace_of (main w argv)) `prefix_of` workflow /\
  (List.length (List.filter is_create (trace_of (main w argv))) <= 1)%nat.
Proof.
  destruct (main_runs w argv); unfold trace_of, connecting, creating, waiting, described in *;
    cbn [fst] in *; invert_runs; (split; [operations_simpl; by eexists | creates_simpl; lia]).
Qed.

(** The only requests the script sends itself are the create and the
    describe request. *)
Lemma run_calls w argv method params :
  Call method params ∈ trace_of (main w argv) ->
  method = "create_db_instance" \/ method = "describe_db_instances".
Proof.
  intros Hin.
  destruct (main_runs w argv); unfold trace_of, connecting, creating, waiting, described in *;
    cbn [fst] in *; invert_runs; mem Hin; injection Hin as -> _; auto.
Qed.

Lemma operations_quiet before :
  Forall (fun e => request_event e = false) before -> operations before = [].
Proof.
  induction 1 as [|e before He _ IH]; [done|].
  unfold operations in *. cbn [omap list_omap]. rewrite IH. by destruct e.
Qed.

Lemma create_failed_run w argv :
  create_failed w (trace_of (main w argv)) ->
  operations (trace_of (main w argv)) = ["create_db_instance"] /\ run w argv = 1.
Proof.
  intros (params & message & Hin & Hreply).
  destruct (create_refused_run w argv params message Hin Hreply) as (before & Hrun & Hq).
  unfold run. rewrite Hrun. split; [|done].
  unfold trace_of, operations. cbn [fst]. rewrite omap_app.
  change (omap operation before) with (operations before).
  by rewrite (operations_quiet before Hq).
Qed.

Lemma wait_failed_run w argv :
  wait_failed w (trace_of (main w argv)) ->
  operations (trace_of (main w argv)) = ["create_db_instance"; "get_waiter"; "wait"] /\
  run w argv = 2.
Proof.
  intros (params & delay & n & e & Hin & Hout & Hh). unfold run.
  destruct (main_runs w argv); unfold trace_of, connecting, creating, waiting, described in *;
    cbn [fst] in *; invert_runs; mem Hin; injection Hin as -> -> ->;
    match goal with H : botocore.wait _ _ _ _ = _ |- _ => rewrite H in Hout end;
    unfold outcome_of in Hout; cbn [snd] in Hout; try discriminate Hout.
  all: try (injection Hout as <-;
            match goal with H : uncaught_by_wait _ |- _ => destruct H as [Hu1 Hu2] end;
            destruct Hh as [[? ->]|[? ->]];
            [by destruct (Hu1 _ eq_refl)|by destruct (Hu2 _ eq_refl)]).
  all: split; [operations_simpl; done|done].
Qed.






(** C8: the operations of every run are an initial part of the workflow
    create, get the waiter, wait, describe, each at most once and in that
    order: the create request is sent at most once, the wait is entered at
    most once, and the only requests the script sends itself are the create
    and the describe request, so nothing is torn down or rolled back.  When
    the create request fails nothing follows it and the status is 1; when the
    wait fails nothing follows it and the status is 2. *)
Theorem no_retry_no_rollback w argv :
  let t := trace_of (main w argv) in
  operations t `prefix_of` workflow /\
  (List.length (List.filter is_create t) <= 1)%nat /\
  (forall method params, Call method params ∈ t ->
     method = "create_db_instance" \/ method = "describe_db_instances") /\
  (create_failed w t -> operations t = ["create_db_instance"] /\ run w argv = 1) /\
  (wait_failed w t ->
     operations t = ["create_db_instance"; "get_waiter"; "wait"] /\ run w argv = 2).
Proof.
  intros t. destruct (run_operations w argv) as [Hops Hcreate].
  split; [done|]. split; [done|]. split; [|split].
  - apply run_calls.
  - apply create_failed_run.
  - apply wait_failed_run.
Qed.

Lemma no_retry_no_rollback_witness :
  (operations (trace_of (main refusing_world [Opt "-i"; Arg "db1"])) =
     ["create_db_instance"] /\
   run refusing_world [Opt "-i"; Arg "db1"] = 1) /\
  (operations (trace_of (main stuck_world [Opt "-i"; Arg "db1"])) =
     ["create_db_instance"; "get_waiter"; "wait"] /\
   run stuck_world [Opt "-i"; Arg "db1"] = 2).
Proof.
  split.
  - apply (proj1 (proj2 (proj2 (proj2
             (no_retry_no_rollback refusing_world [Opt "-i"; Arg "db1"]))))).
    exists (build_params (parsed [Opt "-i"; Arg "db1"]) (PyStr "s3cret")),
           (Some "DB instance already exists").
    split; [in_trace 4%nat|reflexivity].
  - apply (proj2 (proj2 (proj2 (proj2
             (no_retry_no_rollback stuck_world [Opt "-i"; Arg "db1"]))))).
    exists (identified (PyStr "db1")), 30, 60, (WaiterError botocore.max_attempts_exceeded).
    split; [in_trace 8%nat|]. split; [vm_compute; reflexivity|]. left. by eexists.
Defined.

(** ** The parameters of the create request *)

Lemma build_params_lookup args pw :
  let params := build_params args pw in
  params !! "StorageType" = Some (PyStr "gp2") /\
  params !! "DBInstanceIdentifier" = Some (args !!! "db_instance_identifier") /\
  params !! "AllocatedStorage" = Some (args !!! "allocated_storage") /\
  params !! "DBInstanceClass" = Some (args !!! "db_instance_class") /\
  params !! "Engine" = Some (args !!! "engine") /\
  params !! "MasterUsername" = Some (args !!! "master_username") /\
  params !! "MasterUserPassword" = Some pw /\
  params !! "DBName" = Some (args !!! "db_name") /\
  params !! "MultiAZ" = Some (args !!! "multi_az") /\
  params !! "PubliclyAccessible" = Some (args !!! "publicly_accessible") /\
  params !! "BackupRetentionPeriod" = Some (args !!! "backup_retention_period") /\
  params !! "VpcSecurityGroupIds" =
    (if truthy (args !!! "vpc_security_group_ids")
     then Some (args !!! "vpc_security_group_ids") else None) /\
  params !! "DBSubnetGroupName" =
    (if truthy (args !!! "db_subnet_group_name")
     then Some (args !!! "db_subnet_group_name") else None).
Proof.
  intros params. subst params. unfold build_params.
  generalize (args !!! "db_instance_identifier") (args !!! "allocated_storage")
    (args !!! "db_instance_class") (args !!! "engine") (args !!! "master_username")
    (args !!! "db_name") (args !!! "multi_az") (args !!! "publicly_accessible")
    (args !!! "backup_retention_period") (args !!! "vpc_security_group_ids")
    (args !!! "db_subnet_group_name").
  intros v1 v2 v3 v4 v5 v6 v7 v8 v9 v10 v11.
  destruct (truthy v10), (truthy v11); repeat split; reflexivity.
Qed.

Lemma build_params_dom args pw k :
  is_Some (build_params args pw !! k) ->
  k ∈ always_keys \/
  (k = "VpcSecurityGroupIds" /\ truthy (args !!! "vpc_security_group_ids") = true) \/
  (k = "DBSubnetGroupName" /\ truthy (args !!! "db_subnet_group_name") = true).
Proof.
  unfold build_params. cbn [list_to_map foldr uncurry].
  intros H.
  destruct (truthy (args !!! "vpc_security_group_ids")) eqn:Hv,
           (truthy (args !!! "db_subnet_group_name")) eqn:Hs.
  all: cbn [fst snd] in H.
  all: repeat (apply lookup_insert_is_Some in H as [<-|[_ H]];
         [ first [ solve [ left; unfold always_keys;
                           repeat (first [apply list_elem_of_here
                                         | apply list_elem_of_further]) ]
                 | right; left; by split
                 | right; right; by split ] |]).
  all: rewrite lookup_empty in H; by destruct H.
Qed.

(** A truthy attribute is not a default of [None]: its option was given. *)
Lemma truthy_given argv args d o :
  parse parser argv = inr args ->
  defaults parser !! d = Some PyNone ->
  (forall o' a, find_action parser o' = Some a -> dest a = d -> o' = o) ->
  truthy (args !!! d) = true ->
  Opt o ∈ argv.
Proof.
  intros Hp Hd Ho Ht. destruct (decide (Opt o ∈ argv)) as [|Hno]; [done|].
  assert (args !! d = Some PyNone) as Hv.
  { rewrite <- Hd. apply (parse_omitted argv args d Hp).
    intros o' a Hin Hf Hdest. apply Hno. by rewrite <- (Ho o' a Hf Hdest). }
  by rewrite (lookup_total_correct _ _ _ Hv) in Ht.
Qed.

(** C10: the parameters of every create request of a run are those of
    [build_params] for the parsed arguments: [StorageType] is ["gp2"]
    whatever the arguments, the ten parameters taken from the arguments and
    the password are always there, [VpcSecurityGroupIds] and
    [DBSubnetGroupName] are there exactly when the value of their argument is
    truthy (a non-empty list, a non-empty string), which needs their option on
    the command line, and there is no other parameter. *)
Theorem create_request_parameters w argv params :
  Call "create_db_instance" params ∈ trace_of (main w argv) ->
  exists args pw,
    parse parser argv = inr args /\
    params !! "StorageType" = Some (PyStr "gp2") /\
    params !! "DBInstanceIdentifier" = Some (args !!! "db_instance_identifier") /\
    params !! "AllocatedStorage" = Some (args !!! "allocated_storage") /\
    params !! "DBInstanceClass" = Some (args !!! "db_instance_class") /\
    params !! "Engine" = Some (args !!! "engine") /\
    params !! "MasterUsername" = Some (args !!! "master_username") /\
    params !! "MasterUserPassword" = Some pw /\
    params !! "DBName" = Some (args !!! "db_name") /\
    params !! "MultiAZ" = Some (args !!! "multi_az") /\
    params !! "PubliclyAccessible" = Some (args !!! "publicly_accessible") /\
    params !! "BackupRetentionPeriod" = Some (args !!! "backup_retention_period") /\
    params !! "VpcSecurityGroupIds" =
      (if truthy (args !!! "vpc_security_group_ids")
       then Some (args !!! "vpc_security_group_ids") else None) /\
    params !! "DBSubnetGroupName" =
      (if truthy (args !!! "db_subnet_group_name")
       then Some (args !!! "db_subnet_group_name") else None) /\
    (is_Some (params !! "VpcSecurityGroupIds") -> Opt "--vpc-security-group-ids" ∈ argv) /\
    (is_Some (params !! "DBSubnetGroupName") -> Opt "--db-subnet-group-name" ∈ argv) /\
    (forall k, is_Some (params !! k) ->
       k ∈ always_keys \/ k = "VpcSecurityGroupIds" \/ k = "DBSubnetGroupName").
Proof.
  intros Hin.
  destruct (create_call_inv w argv params Hin)
    as (args & tp & pw & after & Hp & Hpw & -> & _ & _).
  exists args, pw. split; [done|].
  destruct (build_params_lookup args pw)
    as (H1 & H2 & H3 & H4 & H5 & H6 & H7 & H8 & H9 & H10 & H11 & H12 & H13).
  do 13 (split; [done|]). split; [|split].
  - rewrite H12. destruct (truthy (args !!! "vpc_security_group_ids")) eqn:Ht;
      [|by intros [? [=]]]. intros _.
    apply (truthy_given argv args "vpc_security_group_ids"); try done.
    apply parser_security_groups.
  - rewrite H13. destruct (truthy (args !!! "db_subnet_group_name")) eqn:Ht;
      [|by intros [? [=]]]. intros _.
    apply (truthy_given argv args "db_subnet_group_name"); try done.
    apply parser_subnet_group.
  - intros k Hk. destruct (build_params_dom args pw k Hk) as [?|[[? _]|[? _]]]; auto.
Qed.

Lemma create_request_parameters_witness :
  exists args pw,
    parse parser [Opt "-i"; Arg "db1"; Opt "--vpc-security-group-ids"; Arg "sg-1"] =
      inr args /\
    build_params
      (parsed [Opt "-i"; Arg "db1"; Opt "--vpc-security-group-ids"; Arg "sg-1"])
      (PyStr "s3cret") !! "StorageType" = Some (PyStr "gp2") /\
    build_params
      (parsed [Opt "-i"; Arg "db1"; Opt "--vpc-security-group-ids"; Arg "sg-1"])
      (PyStr "s3cret") !! "MasterUserPassword" = Some pw.
Proof.
  destruct (create_request_parameters (good_world 0)
              [Opt "-i"; Arg "db1"; Opt "--vpc-security-group-ids"; Arg "sg-1"]
              (build_params
                 (parsed [Opt "-i"; Arg "db1"; Opt "--vpc-security-group-ids"; Arg "sg-1"])
                 (PyStr "s3cret")))
    as (args & pw & Hp & Hs & _ & _ & _ & _ & _ & Hpw & _).
  - in_trace 4%nat.
  - exists args, pw. split; [exact Hp|]. split; [exact Hs|exact Hpw].
Defined.

(** ** The password *)

(** The last password given on the command line is the attribute. *)
Lemma parse_password_given pre v post args :
  parse parser (pre ++ Opt "--master-user-password" :: Arg v :: post) = inr args ->
  Opt "--master-user-password" ∉ post ->
  args !! "master_user_password" = Some (PyStr v).
Proof.
  unfold parse. rewrite groups_app, groups_opt, groups_arg. cbn [fst snd].
  rewrite consume_app.
  destruct (consume parser (groups pre).2 _) as [|st1]; [done|].
  cbn [consume]. unfold consume_optional at 1.
  replace (find_action parser "--master-user-password")
    with (Some (option_ ["--master-user-password"] "master_user_password" Str None
                  false PyNone)) by (vm_compute; reflexivity).
  cbn [act option_]. unfold get_checked, get_value, check_value.
  cbn [type_ choices option_].
  destruct (consume parser (groups post).2 _) as [|st3] eqn:Hc; [done|].
  destruct (missing parser st3); [|done]. destruct (extras st3); [|done].
  intros [= <-] Hno.
  rewrite (consume_untouched _ _ _ _ "master_user_password" Hc).
  - cbn [namespace add_extras record dest]. apply lookup_insert_eq.
  - intros o l a Hin Hf Hd. apply groups_options in Hin.
    by rewrite (parser_password o a Hf Hd) in Hin.
Qed.

Lemma parse_password_omitted argv args :
  parse parser argv = inr args ->
  Opt "--master-user-password" ∉ argv ->
  args !!! "master_user_password" = PyNone.
Proof.
  intros Hp Hno. apply lookup_total_correct.
  rewrite (parse_omitted argv args "master_user_password" Hp); [by vm_compute|].
  intros o a Hin Hf Hd. by rewrite (parser_password o a Hf Hd) in Hin.
Qed.

(** C5, as the spec states it, fails for a password given as the empty
    string: the argument is supplied, and the script prompts all the same. *)
Lemma empty_password_prompts_counterexample :
  let argv := [Opt "-i"; Arg "db1"; Opt "--master-user-password"; Arg ""] in
  (Opt "--master-user-password" ∈ argv) /\
  parsed argv !!! "master_user_password" = PyStr "" /\
  prompts (trace_of (main (good_world 0) argv)) = [Getpass password_prompt] /\
  ~ (forall w argv, Opt "--master-user-password" ∈ argv ->
       prompts (trace_of (main w argv)) = []).
Proof.
  intros argv.
  assert (Opt "--master-user-password" ∈ argv) as Hin
    by (apply (list_elem_of_lookup_2 _ 2%nat); reflexivity).
  assert (prompts (trace_of (main (good_world 0) argv)) = [Getpass password_prompt]) as Hp
    by (vm_compute; reflexivity).
  split; [done|]. split; [by vm_compute|]. split; [done|].
  intros H. specialize (H (good_world 0) argv Hin). rewrite Hp in H. discriminate H.
Qed.

(** C5 (amended): in every run that reaches the create request, a password
    argument that is omitted, or given as the empty string, makes the script
    ask for the password with [getpass], once, before it sends the request
    and before anything is asked of the provider's service, and the reply is
    the [MasterUserPassword] of the request; a password argument given with a
    non-empty value is the [MasterUserPassword] and the script does not
    prompt. *)
Theorem password_prompt_when_missing w argv params :
  Call "create_db_instance" params ∈ trace_of (main w argv) ->
  exists args,
    parse parser argv = inr args /\
    (Opt "--master-user-password" ∉ argv -> args !!! "master_user_password" = PyNone) /\
    (forall pre v post,
       argv = pre ++ Opt "--master-user-password" :: Arg v :: post ->
       Opt "--master-user-password" ∉ post ->
       args !!! "master_user_password" = PyStr v) /\
    if truthy (args !!! "master_user_password")
    then
      prompts (trace_of (main w argv)) = [] /\
      params !! "MasterUserPassword" = Some (args !!! "master_user_password")
    else
      exists reply before after,
        getpass_reply w password_prompt = Ok reply /\
        trace_of (main w argv) = before ++ Getpass password_prompt :: after /\
        Call "create_db_instance" params ∈ after /\
        Forall (fun e => request_event e = false) before /\
        prompts before = [] /\ prompts after = [] /\
        params !! "MasterUserPassword" = Some (PyStr reply).
Proof.
  intros Hin.
  destruct (create_call_inv w argv params Hin)
    as (args & tp & pw & after & Hp & Hpw & -> & Ht & Hafter).
  exists args. split; [done|]. split; [by apply parse_password_omitted|]. split.
  { intros pre v post -> Hno. apply lookup_total_correct.
    by apply (parse_password_given pre v post). }
  destruct (build_params_lookup args pw) as (_ & _ & _ & _ & _ & _ & Hlook & _).
  inversion Hpw as [Htruthy|s Htruthy Hreply]; subst; rewrite Htruthy.
  - split; [|done]. rewrite Ht. unfold prompts in *.
    rewrite !List.filter_app, Hafter. by cbn.
  - exists s, (connecting args), (creating args (build_params args (PyStr s)) ++ after).
    split; [done|]. split; [by rewrite Ht|]. split.
    { apply elem_of_app. left. unfold creating.
      apply list_elem_of_further, list_elem_of_here. }
    split; [by repeat constructor|]. split; [done|]. split; [|done].
    unfold prompts in *. rewrite List.filter_app, Hafter. by cbn.
Qed.

Lemma password_prompt_when_missing_witness :
  exists args,
    parse parser [Opt "-i"; Arg "db1"] = inr args /\
    exists reply before after,
      getpass_reply (good_world 0) password_prompt = Ok reply /\
      trace_of (main (good_world 0) [Opt "-i"; Arg "db1"]) =
        before ++ Getpass password_prompt :: after /\
      build_params (parsed [Opt "-i"; Arg "db1"]) (PyStr "s3cret") !! "MasterUserPassword" =
        Some (PyStr reply).
Proof.
  destruct (password_prompt_when_missing (good_world 0) [Opt "-i"; Arg "db1"]
              (build_params (parsed [Opt "-i"; Arg "db1"]) (PyStr "s3cret")))
    as (args & Hp & Hnone & _ & H).
  - in_trace 4%nat.
  - exists args. split; [exact Hp|].
    rewrite Hnone in H.
    + destruct H as (reply & before & after & Hr & Ht & _ & _ & _ & _ & Hl).
      exists reply, before, after. split; [exact Hr|]. split; [exact Ht|exact Hl].
    + intros Hin. repeat (apply elem_of_cons in Hin as [Hin|Hin]; [discriminate Hin|]).
      by apply elem_of_nil in Hin.
Defined.

(** ** The wait *)

Ltac checks_simpl :=
  unfold status_checks in *;
  repeat first
    [ rewrite List.filter_app
    | rewrite List.length_app
    | progress cbn [List.filter is_status_check app described creating waiting connecting
                    List.length] ].

(** For a timeout of at least a minute, the attempts allowed are the seconds
    of the timeout divided by the delay, two a minute. *)
Lemma max_attempts_positive timeout_minutes :
  1 <= timeout_minutes ->
  max_attempts timeout_minutes = timeout_minutes * 60 / 30 /\
  max_attempts timeout_minutes = 2 * timeout_minutes.
Proof.
  intros H. unfold max_attempts. rewrite Z.quot_div_nonneg by lia.
  split; [done|]. replace (timeout_minutes * 60) with ((2 * timeout_minutes) * 30) by lia.
  apply Z.div_mul. lia.
Qed.





(** The bound is reached when the instance never becomes available. *)
Example stuck_world_checks :
  status_checks (trace_of (wait_for_available stuck_world (PyStr "db1") 30)) = 60%nat /\
  outcome_of (wait_for_available stuck_world (PyStr "db1") 30) = Returns false.
Proof. by vm_compute. Qed.

(** ** More facts about the parser *)

Ltac default_of Hp :=
  apply lookup_total_correct;
  rewrite (parse_omitted _ _ _ Hp); [by vm_compute|];
  let Hf := fresh "Hf" in
  let Hd := fresh "Hd" in
  let Hopt := fresh "Hopt" in
  intros ? ? Hopt Hf Hd; parser_cases Hf; try discriminate Hd;
  match goal with Ho : _ ∈ _ :: _ |- _ => option_cases Ho end; done.

Lemma parse_defaults argv args :
  parse parser argv = inr args ->
  (Opt "--db-instance-class" ∉ argv -> Opt "-c" ∉ argv ->
     args !!! "db_instance_class" = PyStr "db.t3.micro") /\
  (Opt "--engine" ∉ argv -> args !!! "engine" = PyStr "postgres") /\
  (Opt "--allocated-storage" ∉ argv -> args !!! "allocated_storage" = PyInt 20) /\
  (Opt "--db-name" ∉ argv -> args !!! "db_name" = PyStr "mydb") /\
  (Opt "--master-username" ∉ argv -> args !!! "master_username" = PyStr "admin") /\
  (Opt "--backup-retention-period" ∉ argv -> args !!! "backup_retention_period" = PyInt 7) /\
  (Opt "--multi-az" ∉ argv -> args !!! "multi_az" = PyBool false) /\
  (Opt "--publicly-accessible" ∉ argv -> args !!! "publicly_accessible" = PyBool false) /\
  (Opt "--vpc-security-group-ids" ∉ argv -> args !!! "vpc_security_group_ids" = PyNone) /\
  (Opt "--db-subnet-group-name" ∉ argv -> args !!! "db_subnet_group_name" = PyNone) /\
  (Opt "--region" ∉ argv -> args !!! "region" = PyNone).
Proof.
  intros Hp. repeat split; intros; default_of Hp.
Qed.

(** A value of the namespace is a default or was produced by an option of the
    command line. *)
Lemma parse_value argv args d v :
  parse parser argv = inr args -> args !! d = Some v ->
  defaults parser !! d = Some v \/
  exists o a, Opt o ∈ argv /\ find_action parser o = Some a /\ dest a = d /\ produced a v.
Proof.
  intros (st & Hc & _ & _ & ->)%parse_cases Hv.
  destruct (consume_value _ _ _ _ _ _ Hc Hv) as [Hd|(o & l & a & Hin & Hf & Hd & Hpr)].
  - by left.
  - right. exists o, a. split; [|done]. by apply (groups_options argv o l).
Qed.

Lemma get_values_str a o l vs :
  type_ a = Str -> choices a = None -> get_values a o l = inr vs -> vs = PyStr <$> l.
Proof.
  intros Ht Hc. revert vs. induction l as [|s l IH]; intros vs; cbn [get_values].
  - by intros [= <-].
  - unfold get_checked, get_value, check_value. rewrite Ht, Hc.
    destruct (get_values a o l) as [|vs']; [done|]. intros [= <-].
    by rewrite (IH vs').
Qed.

(** Every option string of the command line starts a group. *)
Lemma groups_given argv o :
  Opt o ∈ argv -> exists args, (o, args) ∈ (groups argv).2.
Proof.
  induction argv as [|[o'|s] argv IH].
  - by intros ?%elem_of_nil.
  - rewrite groups_opt. cbn [snd]. intros [[= ->]|Hin]%elem_of_cons.
    + eexists. apply list_elem_of_here.
    + destruct (IH Hin) as [args ?]. exists args. by apply list_elem_of_further.
  - rewrite groups_arg. cbn [snd]. intros [[=]|Hin]%elem_of_cons. by apply IH.
Qed.

Lemma consume_seen_mono p gs st st' d :
  consume p gs st = inr st' -> d ∈ seen st -> d ∈ seen st'.
Proof.
  revert st. induction gs as [|[o args] gs IH]; intros st.
  - by intros [= <-].
  - cbn [consume]. destruct (consume_optional p (o, args) st) as [|st1] eqn:H1; [done|].
    intros H2 Hd. apply (IH _ H2).
    apply consume_optional_inr in H1 as [(_ & _ & ->)|(a & v & _ & _ & ->)]; [done|].
    by apply list_elem_of_further.
Qed.

(** An option of the command line that the parser declares is seen. *)
Lemma consume_sees p gs st st' o args a :
  consume p gs st = inr st' -> (o, args) ∈ gs -> find_action p o = Some a ->
  dest a ∈ seen st'.
Proof.
  revert st. induction gs as [|[o' args'] gs IH]; intros st.
  - by intros _ ?%elem_of_nil.
  - cbn [consume]. destruct (consume_optional p (o', args') st) as [|st1] eqn:H1; [done|].
    intros H2 [[= <- <-]|Hin]%elem_of_cons Hf.
    + apply (consume_seen_mono _ _ _ _ _ H2).
      apply consume_optional_inr in H1 as [(Hnone & _)|(a' & v & Hf' & _ & ->)]; [congruence|].
      rewrite Hf in Hf'. injection Hf' as <-. apply list_elem_of_here.
    + by apply (IH _ H2).
Qed.

(** The attribute of an option of the command line holds a value that one of
    the options of that attribute produced. *)
Lemma parse_given argv args o a :
  parse parser argv = inr args -> Opt o ∈ argv -> find_action parser o = Some a ->
  exists a' v o', find_action parser o' = Some a' /\ dest a' = dest a /\
                  produced a' v /\ args !! dest a = Some v.
Proof.
  intros (st & Hc & _ & _ & ->)%parse_cases [l Hin]%groups_given Hf.
  eapply consume_seen_value; [|exact Hc|by apply (consume_sees _ _ _ _ o l a Hc)].
  intros d H. cbn [seen] in H. by apply elem_of_nil in H.
Qed.

(** The strings no action consumed stay. *)
Lemma consume_optional_extras p g st st' s :
  consume_optional p g st = inr st' -> s ∈ extras st -> s ∈ extras st'.
Proof.
  destruct g as [o args]. unfold consume_optional.
  destruct (find_action p o) as [a|].
  - destruct (act a) as [[]| |]; try done.
    + destruct args as [|v surplus]; [done|].
      destruct (get_checked a o v); [done|]. intros [= <-] H. cbn. apply elem_of_app. by left.
    + destruct (get_values a o args); [done|]. by intros [= <-].
    + intros [= <-] H. cbn. apply elem_of_app. by left.
  - intros [= <-] H. cbn. apply elem_of_app. by left.
Qed.

Lemma consume_extras p gs st st' s :
  consume p gs st = inr st' -> s ∈ extras st -> s ∈ extras st'.
Proof.
  revert st. induction gs as [|g gs IH]; intros st.
  - by intros [= <-].
  - cbn [consume]. destruct (consume_optional p g st) as [|st1] eqn:H1; [done|].
    intros H2 Hs. apply (IH _ H2). by apply (consume_optional_extras _ _ _ _ _ H1).
Qed.

Lemma consume_optional_leftover p g st st' s :
  consume_optional p g st = inr st' -> s ∈ leftover p g -> s ∈ extras st'.
Proof.
  destruct g as [o args]. unfold consume_optional, leftover. cbn [fst snd].
  destruct (find_action p o) as [a|].
  - destruct (act a) as [[]| |]; try done.
    + destruct args as [|v surplus]; [done|].
      destruct (get_checked a o v); [done|]. intros [= <-] H. cbn. apply elem_of_app. by right.
    + by intros _ ?%elem_of_nil.
    + intros [= <-] H. cbn. apply elem_of_app. by right.
  - intros [= <-] H. cbn. apply elem_of_app. by right.
Qed.

Lemma consume_leftover p gs st st' g s :
  consume p gs st = inr st' -> g ∈ gs -> s ∈ leftover p g -> s ∈ extras st'.
Proof.
  revert st. induction gs as [|g' gs IH]; intros st.
  - by intros _ ?%elem_of_nil.
  - cbn [consume]. destruct (consume_optional p g' st) as [|st1] eqn:H1; [done|].
    intros H2 [->|Hin]%elem_of_cons Hs.
    + apply (consume_extras _ _ _ _ _ H2). by apply (consume_optional_leftover _ _ _ _ _ H1).
    + by apply (IH _ H2).
Qed.

(** A parse that returns left nothing over. *)
Lemma parse_no_leftover argv args :
  parse parser argv = inr args ->
  (groups argv).1 = [] /\ forall g, g ∈ (groups argv).2 -> leftover parser g = [].
Proof.
  intros (st & Hc & _ & He & _)%parse_cases. split.
  - destruct (groups argv).1 as [|s l] eqn:Hl; [done|].
    assert (s ∈ extras st) as Hs
      by (apply (consume_extras _ _ _ _ _ Hc); cbn [extras]; apply list_elem_of_here).
    rewrite He in Hs. by apply elem_of_nil in Hs.
  - intros g Hg. destruct (leftover parser g) as [|s l] eqn:Hl; [done|].
    assert (s ∈ extras st) as Hs
      by (apply (consume_leftover _ _ _ _ g _ Hc Hg); rewrite Hl; apply list_elem_of_here).
    rewrite He in Hs. by apply elem_of_nil in Hs.
Qed.

(** The group of an option string followed by what comes after it. *)
Lemma groups_at pre o rest :
  (groups (pre ++ Opt o :: rest)).2 =
  (groups pre).2 ++ (o, (groups rest).1) :: (groups rest).2.
Proof. by rewrite groups_app, groups_opt. Qed.

(** A parse ends at the first option it refuses, unless a help option came
    before. *)
Lemma parse_stops_at pre o rest e :
  (forall st, consume_optional parser (o, (groups rest).1) st = inl (ExitError e)) ->
  (exists e', parse parser (pre ++ Opt o :: rest) = inl (ExitError e')) \/
  (asks_help pre /\ parse parser (pre ++ Opt o :: rest) = inl ExitHelp).
Proof.
  intros Hstop. unfold parse.
  rewrite groups_app, groups_opt. cbn [fst snd]. rewrite consume_app.
  destruct (consume parser (groups pre).2 _) as [[|e1]|st] eqn:Hc.
  - right. split; [|done].
    apply consume_help in Hc as (o' & l & a & Hin & Hf & Ha).
    apply groups_options in Hin.
    by destruct (parser_help o' a Hf Ha) as [->| ->]; [left|right].
  - left. by exists e1.
  - left. cbn [consume]. rewrite Hstop. by eexists.
Qed.

(** When what comes before the option is a command line that parses, or
    nothing, the parse ends at the option. *)
Lemma parse_stops_after pre o rest e :
  pre = [] \/ (exists args, parse parser pre = inr args) ->
  (forall st, consume_optional parser (o, (groups rest).1) st = inl (ExitError e)) ->
  parse parser (pre ++ Opt o :: rest) = inl (ExitError e).
Proof.
  intros Hpre Hstop. unfold parse.
  rewrite groups_app, groups_opt. cbn [fst snd]. rewrite consume_app.
  destruct Hpre as [->|[args (st & Hc & _)%parse_cases]].
  - cbn [groups foldr fst snd consume]. by rewrite Hstop.
  - rewrite Hc. cbn [consume]. by rewrite Hstop.
Qed.

Lemma main_stops_at w pre o rest e :
  (forall st, consume_optional parser (o, (groups rest).1) st = inl (ExitError e)) ->
  let argv := pre ++ Opt o :: rest in
  (usage_exit (main w argv) \/ (asks_help pre /\ help_exit (main w argv))) /\
  offline (trace_of (main w argv)) /\
  (~ asks_help pre -> usage_exit (main w argv) /\ run w argv = 2) /\
  (pre = [] \/ (exists args, parse parser pre = inr args) ->
   main w argv = ([PrintUsageError e], Exits 2)).
Proof.
  intros Hstop argv.
  assert (usage_exit (main w argv) \/ (asks_help pre /\ help_exit (main w argv))) as H.
  { unfold main, parse_args, argparse.parse_args.
    destruct (parse_stops_at pre o rest e Hstop) as [[e' He]|[Hh He]];
      subst argv; rewrite He; [left; exists e'|right; split; [done|]]; by run_simpl. }
  split; [done|]. split; [|split].
  - apply exits_offline. tauto.
  - intros Hno. destruct H as [H|[H _]]; [|done]. split; [done|].
    destruct H as [e' He]. unfold run. by rewrite He.
  - intros Hpre. subst argv. unfold main, parse_args, argparse.parse_args.
    rewrite (parse_stops_after pre o rest e Hpre Hstop). by run_simpl.
Qed.

(** The value after the last occurrence of an option that stores one value
    is the attribute, converted and checked. *)
Lemma parse_last pre o v post args a :
  parse parser (pre ++ Opt o :: Arg v :: post) = inr args ->
  find_action parser o = Some a -> act a = Store One ->
  (forall o' a', Opt o' ∈ post -> find_action parser o' = Some a' -> dest a' <> dest a) ->
  exists pv, get_checked a o v = inr pv /\ args !! dest a = Some pv.
Proof.
  unfold parse. rewrite groups_app, groups_opt, groups_arg. cbn [fst snd].
  rewrite consume_app.
  destruct (consume parser (groups pre).2 _) as [|st1]; [done|].
  cbn [consume]. unfold consume_optional at 1.
  intros H Hf Ha Hno. rewrite Hf, Ha in H.
  destruct (get_checked a o v) as [|pv]; [done|]. exists pv. split; [done|].
  destruct (consume parser (groups post).2 _) as [|st3] eqn:Hc; [done|].
  destruct (missing parser st3); [|done]. destruct (extras st3); [|done].
  injection H as <-.
  rewrite (consume_untouched _ _ _ _ (dest a) Hc).
  - cbn [namespace add_extras record dest]. apply lookup_insert_eq.
  - intros o' l a' Hin Hf'. apply groups_options in Hin. by apply (Hno o' a').
Qed.

(** ** The arguments in the create request *)

Ltac elem := solve [repeat first [apply list_elem_of_here | apply list_elem_of_further]].

(** The value of attribute [d] after a parse: its default, or what one of
    its options produced. *)
Ltac attribute Hp d :=
  let v := fresh "v" in
  let Hv := fresh "Hv" in
  let Hdef := fresh "Hdef" in
  let o := fresh "o" in
  let a := fresh "a" in
  let Hf := fresh "Hf" in
  let Hd := fresh "Hd" in
  let Hpr := fresh "Hpr" in
  destruct (parse_sets_attributes _ _ d Hp) as [v Hv]; [unfold attributes; elem|];
  rewrite (lookup_total_correct _ _ _ Hv);
  destruct (parse_value _ _ _ _ Hp Hv) as [Hdef|(o & a & _ & Hf & Hd & Hpr)];
  [ vm_compute in Hdef; injection Hdef as <-
  | parser_cases Hf; try discriminate Hd; unfold produced in Hpr;
    cbn [act option_ flag] in Hpr ].

Ltac converted Hpr :=
  let Hs := fresh "Hs" in
  destruct Hpr as (? & ? & Hs); unfold get_checked, get_value, check_value in Hs;
  cbn [type_ choices option_] in Hs.

Lemma parse_types argv args :
  parse parser argv = inr args ->
  (exists s, args !!! "db_instance_identifier" = PyStr s) /\
  (exists z, args !!! "allocated_storage" = PyInt z) /\
  (exists s, args !!! "db_instance_class" = PyStr s) /\
  (exists s, args !!! "engine" = PyStr s /\ s ∈ engine_choices) /\
  (exists s, args !!! "master_username" = PyStr s) /\
  (exists s, args !!! "db_name" = PyStr s) /\
  (exists b, args !!! "multi_az" = PyBool b) /\
  (exists b, args !!! "publicly_accessible" = PyBool b) /\
  (exists z, args !!! "backup_retention_period" = PyInt z) /\
  (args !!! "master_user_password" = PyNone \/
   exists s, args !!! "master_user_password" = PyStr s) /\
  (args !!! "vpc_security_group_ids" = PyNone \/
   exists l, args !!! "vpc_security_group_ids" = PyList (PyStr <$> l)) /\
  (args !!! "db_subnet_group_name" = PyNone \/
   exists s, args !!! "db_subnet_group_name" = PyStr s) /\
  (args !!! "region" = PyNone \/ exists s, args !!! "region" = PyStr s).
Proof.
  intros Hp. repeat split.
  - destruct (parse_identifier_value argv args Hp) as [s Hs]. exists s.
    by apply lookup_total_correct.
  - attribute Hp "allocated_storage"; [by eexists|]. converted Hpr.
    destruct (py_int _); [|done]. injection Hs as <-. by eexists.
  - attribute Hp "db_instance_class"; [by eexists|]. converted Hpr.
    injection Hs as <-. by eexists.
  - destruct (parse_engine argv args Hp) as (s & Hs & Hin). exists s.
    split; [by apply lookup_total_correct|done].
  - attribute Hp "master_username"; [by eexists|]. converted Hpr.
    injection Hs as <-. by eexists.
  - attribute Hp "db_name"; [by eexists|]. converted Hpr.
    injection Hs as <-. by eexists.
  - attribute Hp "multi_az"; [by eexists|]. subst. by eexists.
  - attribute Hp "publicly_accessible"; [by eexists|]. subst. by eexists.
  - attribute Hp "backup_retention_period"; [by eexists|]. converted Hpr.
    destruct (py_int _); [|done]. injection Hs as <-. by eexists.
  - attribute Hp "master_user_password"; [by left|]. converted Hpr.
    injection Hs as <-. right. by eexists.
  - attribute Hp "vpc_security_group_ids"; [by left|].
    destruct Hpr as (o' & l & vs & Hvs & ->). right. exists l.
    apply get_values_str in Hvs; [|done..]. by rewrite Hvs.
  - attribute Hp "db_subnet_group_name"; [by left|]. converted Hpr.
    injection Hs as <-. right. by eexists.
  - attribute Hp "region"; [by left|]. converted Hpr.
    injection Hs as <-. right. by eexists.
Qed.

Lemma parse_flags argv args :
  parse parser argv = inr args ->
  args !!! "multi_az" = PyBool (bool_decide (Opt "--multi-az" ∈ argv)) /\
  args !!! "publicly_accessible" = PyBool (bool_decide (Opt "--publicly-accessible" ∈ argv)).
Proof.
  intros Hp. split; case_bool_decide as Hgiven.
  - destruct (parse_given argv args "--multi-az" (flag ["--multi-az"] "multi_az") Hp Hgiven)
      as (a & v & o & Hf & Hd & Hpr & Hv); [by vm_compute|].
    apply lookup_total_correct. cbn [dest flag] in *. rewrite Hv.
    parser_cases Hf; try discriminate Hd. unfold produced in Hpr. cbn [act flag] in Hpr.
    by subst.
  - by apply (parse_defaults argv args Hp).
  - destruct (parse_given argv args "--publicly-accessible"
                (flag ["--publicly-accessible"] "publicly_accessible") Hp Hgiven)
      as (a & v & o & Hf & Hd & Hpr & Hv); [by vm_compute|].
    apply lookup_total_correct. cbn [dest flag] in *. rewrite Hv.
    parser_cases Hf; try discriminate Hd. unfold produced in Hpr. cbn [act flag] in Hpr.
    by subst.
  - by apply (parse_defaults argv args Hp).
Qed.

(** X1: in a run that sends the create request, an option that is not on
    the command line leaves its default in the request: instance class
    [db.t3.micro], engine [postgres], 20 GB of storage, database [mydb], user
    [admin], 7 days of backups. *)
Theorem request_defaults w argv params :
  Call "create_db_instance" params ∈ trace_of (main w argv) ->
  (Opt "--db-instance-class" ∉ argv -> Opt "-c" ∉ argv ->
     params !! "DBInstanceClass" = Some (PyStr "db.t3.micro")) /\
  (Opt "--engine" ∉ argv -> params !! "Engine" = Some (PyStr "postgres")) /\
  (Opt "--allocated-storage" ∉ argv -> params !! "AllocatedStorage" = Some (PyInt 20)) /\
  (Opt "--db-name" ∉ argv -> params !! "DBName" = Some (PyStr "mydb")) /\
  (Opt "--master-username" ∉ argv -> params !! "MasterUsername" = Some (PyStr "admin")) /\
  (Opt "--backup-retention-period" ∉ argv ->
     params !! "BackupRetentionPeriod" = Some (PyInt 7)).
Proof.
  intros Hin.
  destruct (create_call_inv w argv params Hin)
    as (args & tp & pw & after & Hp & Hpw & -> & _ & _).
  destruct (build_params_lookup args pw)
    as (_ & _ & H3 & H4 & H5 & H6 & _ & H8 & _ & _ & H11 & _).
  destruct (parse_defaults argv args Hp) as (D1 & D2 & D3 & D4 & D5 & D6 & _).
  rewrite H3, H4, H5, H6, H8, H11.
  repeat split; intros; f_equal; auto.
Qed.

Lemma request_defaults_witness :
  let params := build_params (parsed [Opt "-i"; Arg "db1"]) (PyStr "s3cret") in
  params !! "DBInstanceClass" = Some (PyStr "db.t3.micro") /\
  params !! "Engine" = Some (PyStr "postgres") /\
  params !! "AllocatedStorage" = Some (PyInt 20) /\
  params !! "DBName" = Some (PyStr "mydb") /\
  params !! "MasterUsername" = Some (PyStr "admin") /\
  params !! "BackupRetentionPeriod" = Some (PyInt 7).
Proof.
  intros params.
  destruct (request_defaults (good_world 0) [Opt "-i"; Arg "db1"] params)
    as (H1 & H2 & H3 & H4 & H5 & H6).
  - in_trace 4%nat.
  - assert (forall o, o <> "-i" -> Opt o ∉ [Opt "-i"; Arg "db1"]) as Hno.
    { intros o Ho H. repeat (apply elem_of_cons in H as [H|H]; [congruence|]).
      by apply elem_of_nil in H. }
    split; [apply H1; by apply Hno|]. split; [apply H2; by apply Hno|].
    split; [apply H3; by apply Hno|]. split; [apply H4; by apply Hno|].
    split; [apply H5; by apply Hno|apply H6; by apply Hno].
Defined.

(** X2: the create request of a run is well formed: the identifier, the
    instance class, the user, the password and the database name are
    strings, the engine is one of the five choices, the storage and the
    retention period are integers, [MultiAZ] and [PubliclyAccessible] are
    booleans; [VpcSecurityGroupIds], when there, is a non-empty list of
    strings, and [DBSubnetGroupName], when there, a non-empty string. *)
Theorem request_types w argv params :
  Call "create_db_instance" params ∈ trace_of (main w argv) ->
  (exists s, params !! "DBInstanceIdentifier" = Some (PyStr s)) /\
  (exists z, params !! "AllocatedStorage" = Some (PyInt z)) /\
  (exists s, params !! "DBInstanceClass" = Some (PyStr s)) /\
  (exists s, params !! "Engine" = Some (PyStr s) /\ s ∈ engine_choices) /\
  (exists s, params !! "MasterUsername" = Some (PyStr s)) /\
  (exists s, params !! "MasterUserPassword" = Some (PyStr s)) /\
  (exists s, params !! "DBName" = Some (PyStr s)) /\
  (exists b, params !! "MultiAZ" = Some (PyBool b)) /\
  (exists b, params !! "PubliclyAccessible" = Some (PyBool b)) /\
  (exists z, params !! "BackupRetentionPeriod" = Some (PyInt z)) /\
  (forall v, params !! "VpcSecurityGroupIds" = Some v ->
     exists s l, v = PyList (PyStr <$> s :: l)) /\
  (forall v, params !! "DBSubnetGroupName" = Some v -> exists s, v = PyStr s /\ s <> "").
Proof.
  intros Hin.
  destruct (create_call_inv w argv params Hin)
    as (args & tp & pw & after & Hp & Hpw & -> & _ & _).
  destruct (build_params_lookup args pw)
    as (_ & H2 & H3 & H4 & H5 & H6 & H7 & H8 & H9 & H10 & H11 & H12 & H13).
  destruct (parse_types argv args Hp)
    as ([s1 T1] & [z2 T2] & [s3 T3] & (s4 & T4 & Hc) & [s5 T5] & [s6 T6] & [b7 T7] &
        [b8 T8] & [z9 T9] & T10 & T11 & T12 & _).
  rewrite H2, H3, H4, H5, H6, H7, H8, H9, H10, H11, H12, H13.
  rewrite T1, T2, T3, T4, T5, T6, T7, T8, T9.
  repeat split; eauto.
  - inversion Hpw as [Ht|s Ht Hr]; subst; [|by eexists].
    destruct T10 as [T|[s T]]; rewrite T in *; [done|by eexists].
  - intros v. destruct T11 as [T|[[|s l] T]]; rewrite T; cbn [truthy fmap list_fmap]; try done.
    intros [= <-]. by exists s, l.
  - intros v. destruct T12 as [T|[s T]]; rewrite T; cbn [truthy]; [done|].
    destruct (String.eqb_spec s ""); cbn [negb]; [done|]. intros [= <-]. by exists s.
Qed.

Lemma request_types_witness :
  let params :=
    build_params (parsed [Opt "-i"; Arg "db1"; Opt "--vpc-security-group-ids"; Arg "sg-1"])
      (PyStr "s3cret") in
  (exists s, params !! "DBInstanceIdentifier" = Some (PyStr s)) /\
  (exists z, params !! "AllocatedStorage" = Some (PyInt z)).
Proof.
  intros params.
  destruct (request_types (good_world 0)
              [Opt "-i"; Arg "db1"; Opt "--vpc-security-group-ids"; Arg "sg-1"] params)
    as (H1 & H2 & _).
  - in_trace 4%nat.
  - split; [exact H1|exact H2].
Defined.

(** X3: [MultiAZ] and [PubliclyAccessible] of the create request are [True]
    exactly when [--multi-az] and [--publicly-accessible] are on the command
    line. *)
Theorem flags_reach_request w argv params :
  Call "create_db_instance" params ∈ trace_of (main w argv) ->
  params !! "MultiAZ" = Some (PyBool (bool_decide (Opt "--multi-az" ∈ argv))) /\
  params !! "PubliclyAccessible" =
    Some (PyBool (bool_decide (Opt "--publicly-accessible" ∈ argv))).
Proof.
  intros Hin.
  destruct (create_call_inv w argv params Hin)
    as (args & tp & pw & after & Hp & Hpw & -> & _ & _).
  destruct (build_params_lookup args pw)
    as (_ & _ & _ & _ & _ & _ & _ & _ & H9 & H10 & _).
  destruct (parse_flags argv args Hp) as [F1 F2].
  by rewrite H9, H10, F1, F2.
Qed.

Lemma flags_reach_request_witness :
  let params :=
    build_params (parsed [Opt "--multi-az"; Opt "-i"; Arg "db1"]) (PyStr "s3cret") in
  params !! "MultiAZ" = Some (PyBool true) /\
  params !! "PubliclyAccessible" = Some (PyBool false).
Proof.
  intros params.
  apply (flags_reach_request (good_world 0) [Opt "--multi-az"; Opt "-i"; Arg "db1"] params).
  in_trace 4%nat.
Defined.

(** ** The last value of an option, and the region *)

(** The options of the attribute of [o] do not come again in [post]. *)
Ltac not_again Hlast :=
  let o' := fresh "o'" in
  let a' := fresh "a'" in
  let Hpost := fresh "Hpost" in
  let Hf := fresh "Hf" in
  let Hd := fresh "Hd" in
  intros o' a' Hpost Hf Hd; apply (Hlast o' Hpost);
  parser_cases Hf; try discriminate Hd;
  match goal with Ho : _ ∈ _ :: _ |- _ => option_cases Ho end; by vm_compute.

Ltac last_value Hp Hlast o a :=
  let pv := fresh "pv" in
  let Hpv := fresh "Hpv" in
  let Hv := fresh "Hv" in
  destruct (parse_last _ o _ _ _ a Hp) as (pv & Hpv & Hv);
  [ by vm_compute | done | not_again Hlast |];
  cbn [dest option_] in Hv; apply lookup_total_correct in Hv;
  unfold get_checked, get_value, check_value in Hpv; cbn [type_ choices option_] in Hpv.

(** X4: on a canonical command line, the value after the last occurrence
    of an option is the one the create request carries, as it is for the
    strings and converted by [int] for the storage and the retention period,
    with no check of its range; an empty subnet group name leaves
    [DBSubnetGroupName] out. *)
Theorem last_value_is_sent w pre o v post params :
  canonical (pre ++ Opt o :: Arg v :: post) = true ->
  Call "create_db_instance" params ∈ trace_of (main w (pre ++ Opt o :: Arg v :: post)) ->
  (forall o', Opt o' ∈ post -> find_action parser o' <> find_action parser o) ->
  (o = "--db-instance-identifier" \/ o = "-i" ->
     params !! "DBInstanceIdentifier" = Some (PyStr v)) /\
  (o = "--db-instance-class" \/ o = "-c" -> params !! "DBInstanceClass" = Some (PyStr v)) /\
  (o = "--engine" -> params !! "Engine" = Some (PyStr v) /\ v ∈ engine_choices) /\
  (o = "--allocated-storage" ->
     exists z, py_int v = Some z /\ params !! "AllocatedStorage" = Some (PyInt z)) /\
  (o = "--db-name" -> params !! "DBName" = Some (PyStr v)) /\
  (o = "--master-username" -> params !! "MasterUsername" = Some (PyStr v)) /\
  (o = "--backup-retention-period" ->
     exists z, py_int v = Some z /\ params !! "BackupRetentionPeriod" = Some (PyInt z)) /\
  (o = "--db-subnet-group-name" ->
     params !! "DBSubnetGroupName" = if decide (v = "") then None else Some (PyStr v)).
Proof.
  intros _ Hin Hlast.
  destruct (create_call_inv w _ params Hin)
    as (args & tp & pw & after & Hp & Hpw & -> & _ & _).
  destruct (build_params_lookup args pw)
    as (_ & H2 & H3 & H4 & H5 & H6 & _ & H8 & _ & _ & H11 & _ & H13).
  rewrite H2, H3, H4, H5, H6, H8, H11, H13. clear H2 H3 H4 H5 H6 H8 H11 H13 Hin.
  split; [|split; [|split; [|split; [|split; [|split; [|split]]]]]].
  - intros [-> | ->].
    + last_value Hp Hlast "--db-instance-identifier"
        (option_ ["--db-instance-identifier"; "-i"] "db_instance_identifier" Str None true PyNone).
      injection Hpv as <-. by rewrite Hv.
    + last_value Hp Hlast "-i"
        (option_ ["--db-instance-identifier"; "-i"] "db_instance_identifier" Str None true PyNone).
      injection Hpv as <-. by rewrite Hv.
  - intros [-> | ->].
    + last_value Hp Hlast "--db-instance-class"
        (option_ ["--db-instance-class"; "-c"] "db_instance_class" Str None false
           (PyStr "db.t3.micro")).
      injection Hpv as <-. by rewrite Hv.
    + last_value Hp Hlast "-c"
        (option_ ["--db-instance-class"; "-c"] "db_instance_class" Str None false
           (PyStr "db.t3.micro")).
      injection Hpv as <-. by rewrite Hv.
  - intros ->.
    last_value Hp Hlast "--engine"
      (option_ ["--engine"] "engine" Str (Some engine_choices) false (PyStr "postgres")).
    case_bool_decide; [|done]. injection Hpv as <-. by rewrite Hv.
  - intros ->.
    last_value Hp Hlast "--allocated-storage"
      (option_ ["--allocated-storage"] "allocated_storage" Int None false (PyInt 20)).
    destruct (py_int v) as [z|]; [|done]. injection Hpv as <-. exists z. by rewrite Hv.
  - intros ->.
    last_value Hp Hlast "--db-name" (option_ ["--db-name"] "db_name" Str None false (PyStr "mydb")).
    injection Hpv as <-. by rewrite Hv.
  - intros ->.
    last_value Hp Hlast "--master-username"
      (option_ ["--master-username"] "master_username" Str None false (PyStr "admin")).
    injection Hpv as <-. by rewrite Hv.
  - intros ->.
    last_value Hp Hlast "--backup-retention-period"
      (option_ ["--backup-retention-period"] "backup_retention_period" Int None false (PyInt 7)).
    destruct (py_int v) as [z|]; [|done]. injection Hpv as <-. exists z. by rewrite Hv.
  - intros ->.
    last_value Hp Hlast "--db-subnet-group-name"
      (option_ ["--db-subnet-group-name"] "db_subnet_group_name" Str None false PyNone).
    injection Hpv as <-. rewrite Hv. cbn [truthy].
    destruct (decide (v = "")) as [->|Hne]; [done|].
    by rewrite (proj2 (String.eqb_neq v "") Hne).
Qed.

Lemma last_value_is_sent_witness :
  let params :=
    build_params
      (parsed [Opt "-i"; Arg "db0"; Opt "--db-instance-identifier"; Arg "db1";
               Opt "--allocated-storage"; Arg "-5"])
      (PyStr "s3cret") in
  params !! "DBInstanceIdentifier" = Some (PyStr "db1") /\
  exists z, py_int "-5" = Some z /\ params !! "AllocatedStorage" = Some (PyInt z).
Proof.
  intros params. split.
  - apply (proj1 (last_value_is_sent (good_world 0) [Opt "-i"; Arg "db0"]
                    "--db-instance-identifier" "db1" [Opt "--allocated-storage"; Arg "-5"]
                    params
                    ltac:(vm_compute; reflexivity)
                    ltac:(in_trace 4%nat)
                    ltac:(intros o' H; repeat (apply elem_of_cons in H as [H|H];
                            [try discriminate H; injection H as ->; vm_compute; discriminate|]);
                          by apply elem_of_nil in H))).
    by left.
  - apply (proj1 (proj2 (proj2 (proj2
             (last_value_is_sent (good_world 0)
                [Opt "-i"; Arg "db0"; Opt "--db-instance-identifier"; Arg "db1"]
                "--allocated-storage" "-5" [] params
                ltac:(vm_compute; reflexivity)
                ltac:(in_trace 4%nat)
                ltac:(by intros o' H%elem_of_nil)))))).
    reflexivity.
Defined.

(** The session is the first thing asked of the provider. *)
Lemma session_inv w argv kw :
  Session kw ∈ trace_of (main w argv) ->
  exists args after,
    parse parser argv = inr args /\ kw = session_kwargs args /\
    trace_of (main w argv) = Session kw :: after /\
    forall kw', Session kw' ∉ after.
Proof.
  intros Hin.
  destruct (main_runs w argv); unfold trace_of, connecting, creating, waiting, described in *;
    cbn [fst] in *; invert_runs; mem Hin; injection Hin as ->;
    (eexists args, _; split; [done|]; split; [done|]; split; [cbn [app]; reflexivity|]);
    intros kw' Hin'; mem Hin'.
Qed.

Lemma session_kwargs_dom args k v :
  session_kwargs args !! k = Some v ->
  k = "region_name" /\ v = args !!! "region" /\ truthy v = true.
Proof.
  unfold session_kwargs. destruct (truthy (args !!! "region")) eqn:Ht; [|done].
  by intros [<- <-]%lookup_singleton_Some.
Qed.

(** X5: the session is the first thing the script asks for, once; it is
    built with no argument when [--region] is omitted or empty, and with
    [region_name], a non-empty string, the last region given, otherwise. *)
Theorem session_region w argv kw :
  Session kw ∈ trace_of (main w argv) ->
  (exists after, trace_of (main w argv) = Session kw :: after /\
                 forall kw', Session kw' ∉ after) /\
  (Opt "--region" ∉ argv -> kw = ∅) /\
  (forall pre r post,
     argv = pre ++ Opt "--region" :: Arg r :: post -> Opt "--region" ∉ post ->
     kw = if decide (r = "") then ∅ else {["region_name" := PyStr r]}) /\
  (forall k v, kw !! k = Some v -> k = "region_name" /\ exists r, v = PyStr r /\ r <> "").
Proof.
  intros Hs. destruct (session_inv w argv kw Hs) as (args & after & Hp & -> & Ht & Hone).
  clear Hs. split; [by exists after|]. split; [|split].
  - intros Hno. unfold session_kwargs.
    by rewrite (proj2 (proj2 (proj2 (proj2 (proj2 (proj2 (proj2 (proj2 (proj2 (proj2
                  (parse_defaults argv args Hp)))))))))) Hno).
  - intros pre r post -> Hno.
    destruct (parse_last pre "--region" r post args
                (option_ ["--region"] "region" Str None false PyNone) Hp)
      as (pv & Hpv & Hv); [by vm_compute|done| |].
    { intros o' a' Hpost Hf Hd. parser_cases Hf; try discriminate Hd.
      match goal with Ho : _ ∈ _ :: _ |- _ => option_cases Ho end. done. }
    cbn [dest option_] in Hv. apply lookup_total_correct in Hv.
    unfold get_checked, get_value, check_value in Hpv. cbn [type_ choices option_] in Hpv.
    injection Hpv as <-. unfold session_kwargs. rewrite Hv. cbn [truthy].
    destruct (decide (r = "")) as [->|Hne]; [done|].
    by rewrite (proj2 (String.eqb_neq r "") Hne).
  - intros k v (-> & -> & Htr)%session_kwargs_dom. split; [done|].
    destruct (parse_types argv args Hp) as (_ & _ & _ & _ & _ & _ & _ & _ & _ & _ & _ & _ & T).
    destruct T as [T|[r T]]; rewrite T in *; [done|].
    exists r. split; [done|]. intros ->. done.
Qed.

Lemma session_region_witness :
  session_kwargs (parsed [Opt "--region"; Arg "eu-west-1"; Opt "-i"; Arg "db1"]) =
    {["region_name" := PyStr "eu-west-1"]}.
Proof.
  apply (proj1 (proj2 (proj2
           (session_region (good_world 0)
              [Opt "--region"; Arg "eu-west-1"; Opt "-i"; Arg "db1"] _
              ltac:(in_trace 0%nat))))
         [] "eu-west-1" [Opt "-i"; Arg "db1"]).
  - reflexivity.
  - intros H. repeat (apply elem_of_cons in H as [H|H]; [discriminate H|]).
    by apply elem_of_nil in H.
Defined.

(** ** Command lines the parser refuses *)

(** An option that stores one value refuses a value its conversion or its
    choices refuse, and the lack of a value. *)
Lemma value_rejected p o a v l e st :
  find_action p o = Some a -> act a = Store One ->
  get_checked a o v = inl (ExitError e) ->
  consume_optional p (o, v :: l) st = inl (ExitError e).
Proof. intros Hf Ha Hv. unfold consume_optional. by rewrite Hf, Ha, Hv. Qed.

Lemma value_missing p o a st :
  find_action p o = Some a -> act a = Store One ->
  consume_optional p (o, []) st = inl (ExitError (ExpectedOneArgument o)).
Proof. intros Hf Ha. unfold consume_optional. by rewrite Hf, Ha. Qed.

(** X6: on a canonical command line, a value of [--allocated-storage] or
    [--backup-retention-period] that [int] refuses ends the script inside
    argument parsing, before any session, client or call to the provider:
    with a usage error and status 2, or, only if a help option comes before
    it, with the help and status 0.  When nothing comes before the option, or
    a command line that parses, the error is the one of the conversion. *)
Theorem integer_option_rejected w pre o v post :
  canonical (pre ++ Opt o :: Arg v :: post) = true ->
  o = "--allocated-storage" \/ o = "--backup-retention-period" ->
  py_int v = None ->
  let argv := pre ++ Opt o :: Arg v :: post in
  (usage_exit (main w argv) \/ (asks_help pre /\ help_exit (main w argv))) /\
  offline (trace_of (main w argv)) /\
  (~ asks_help pre -> usage_exit (main w argv) /\ run w argv = 2) /\
  (pre = [] \/ (exists args, parse parser pre = inr args) ->
   main w argv = ([PrintUsageError (InvalidIntValue o v)], Exits 2)).
Proof.
  intros _ Ho Hv argv.
  assert (exists a, find_action parser o = Some a /\ act a = Store One /\
                    get_checked a o v = inl (ExitError (InvalidIntValue o v)))
    as (a & Hf & Ha & Hg).
  { destruct Ho as [-> | ->]; eexists; (split; [by vm_compute|]); (split; [done|]);
      unfold get_checked, get_value; cbn [type_ option_]; by rewrite Hv. }
  assert (forall st, consume_optional parser (o, (groups (Arg v :: post)).1) st =
                     inl (ExitError (InvalidIntValue o v))) as Hstop
    by (intros st; rewrite groups_arg; by apply (value_rejected _ _ a)).
  exact (main_stops_at w pre o (Arg v :: post) _ Hstop).
Qed.

Lemma integer_option_rejected_witness :
  main (good_world 0) [Opt "--allocated-storage"; Arg "20GB"; Opt "-i"; Arg "db1"] =
    ([PrintUsageError (InvalidIntValue "--allocated-storage" "20GB")], Exits 2).
Proof.
  apply (integer_option_rejected (good_world 0) [] "--allocated-storage" "20GB"
           [Opt "-i"; Arg "db1"]).
  - vm_compute. reflexivity.
  - by left.
  - vm_compute. reflexivity.
  - by left.
Defined.

(** X7: on a canonical command line, an option that stores one value and
    is followed by no plain argument (it ends the command line, or another
    option follows) ends the script inside argument parsing, before any
    session, client or call to the provider: with a usage error and status
    2, or, only if a help option comes before it, with the help and status 0.
    The usage error is that of an earlier option when there is one; when
    nothing comes before the option, or a command line that parses, it is
    the error that one argument was expected. *)
Theorem missing_value_rejected w pre o a rest :
  canonical (pre ++ Opt o :: rest) = true ->
  find_action parser o = Some a -> act a = Store One ->
  rest = [] \/ (exists o' rest', rest = Opt o' :: rest') ->
  let argv := pre ++ Opt o :: rest in
  (usage_exit (main w argv) \/ (asks_help pre /\ help_exit (main w argv))) /\
  offline (trace_of (main w argv)) /\
  (~ asks_help pre -> usage_exit (main w argv) /\ run w argv = 2) /\
  (pre = [] \/ (exists args, parse parser pre = inr args) ->
   main w argv = ([PrintUsageError (ExpectedOneArgument o)], Exits 2)).
Proof.
  intros _ Hf Ha Hrest argv.
  assert ((groups rest).1 = []) as Hlead.
  { destruct Hrest as [->|(o' & rest' & ->)]; [done|by rewrite groups_opt]. }
  assert (forall st, consume_optional parser (o, (groups rest).1) st =
                     inl (ExitError (ExpectedOneArgument o))) as Hstop
    by (intros st; rewrite Hlead; by apply (value_missing _ _ a)).
  exact (main_stops_at w pre o rest _ Hstop).
Qed.

Lemma missing_value_rejected_witness :
  main (good_world 0) [Opt "-i"; Opt "--multi-az"] =
    ([PrintUsageError (ExpectedOneArgument "-i")], Exits 2).
Proof.
  apply (missing_value_rejected (good_world 0) [] "-i"
           (option_ ["--db-instance-identifier"; "-i"] "db_instance_identifier" Str None
              true PyNone)
           [Opt "--multi-az"]).
  - vm_compute. reflexivity.
  - reflexivity.
  - reflexivity.
  - right. by eexists _, _.
  - by left.
Defined.

(** An option string that matches no declared option is not declared. *)
Lemma unknown_undeclared o : unknown parser o = true -> find_action parser o = None.
Proof.
  intros Hu. destruct (find_action parser o) as [a|] eqn:Hf; [|done].
  parser_cases Hf;
    match goal with Ho : _ ∈ _ :: _ |- _ => option_cases Ho end; by vm_compute in Hu.
Qed.

Lemma unrecognized_leftover argv :
  unrecognized argv ->
  (groups argv).1 <> [] \/ exists g, g ∈ (groups argv).2 /\ leftover parser g <> [].
Proof.
  intros [s rest|pre o rest Hf%unknown_undeclared|pre o a v s rest Hf Ha|pre o a s rest Hf Ha].
  - left. by rewrite groups_arg.
  - right. exists (o, (groups rest).1). split.
    + rewrite groups_at. apply elem_of_app. right. apply list_elem_of_here.
    + unfold leftover. cbn [fst snd]. by rewrite Hf.
  - right. exists (o, v :: s :: (groups rest).1). split.
    + rewrite groups_at, !groups_arg. cbn [fst snd]. apply elem_of_app. right.
      apply list_elem_of_here.
    + unfold leftover. cbn [fst snd]. by rewrite Hf, Ha.
  - right. exists (o, s :: (groups rest).1). split.
    + rewrite groups_at, !groups_arg. cbn [fst snd]. apply elem_of_app. right.
      apply list_elem_of_here.
    + unfold leftover. cbn [fst snd]. by rewrite Hf, Ha.
Qed.

(** X8: a canonical command line with something the parser does not
    consume (a leading plain argument, an option string that matches no
    declared option, not even as a prefix, a second plain argument after an
    option that stores one value, a plain argument after a flag) ends the
    script inside argument parsing, before any session, client or call to
    the provider: with a usage error and status 2, or, only if a help option
    is on the command line, with the help and status 0. *)
Theorem unrecognized_rejected w argv :
  canonical argv = true ->
  unrecognized argv ->
  (usage_exit (main w argv) \/ (asks_help argv /\ help_exit (main w argv))) /\
  offline (trace_of (main w argv)) /\
  (~ asks_help argv -> usage_exit (main w argv) /\ run w argv = 2).
Proof.
  intros _ Hu.
  assert (usage_exit (main w argv) \/ (asks_help argv /\ help_exit (main w argv))) as H.
  { apply main_parse_stop. intros args Hp.
    destruct (parse_no_leftover argv args Hp) as [Hlead Hgs].
    destruct (unrecognized_leftover argv Hu) as [Hl|(g & Hg & Hl)]; [done|].
    by rewrite (Hgs g Hg) in Hl. }
  split; [done|]. split.
  - apply exits_offline. tauto.
  - intros Hno. destruct H as [H|[H _]]; [|done]. split; [done|].
    destruct H as [e He]. unfold run. by rewrite He.
Qed.

Lemma unrecognized_rejected_witness :
  usage_exit (main (good_world 0) [Opt "-i"; Arg "db1"; Opt "--verbose"; Arg "yes"]) /\
  run (good_world 0) [Opt "-i"; Arg "db1"; Opt "--verbose"; Arg "yes"] = 2.
Proof.
  apply (unrecognized_rejected (good_world 0)
           [Opt "-i"; Arg "db1"; Opt "--verbose"; Arg "yes"]).
  - vm_compute. reflexivity.
  - apply (unrecognized_option [Opt "-i"; Arg "db1"] "--verbose" [Arg "yes"]).
    vm_compute. reflexivity.
  - intros [H|H]; repeat (apply elem_of_cons in H as [H|H]; [discriminate H|]);
      by apply elem_of_nil in H.
Defined.

(** An abbreviation of a declared option is a candidate for it, and so is no
    unknown option; neither is a prefix several options share.  The separator
    is no plain argument. *)
Example canonical_examples :
  candidates parser "--eng" = ["--engine"] /\
  unknown parser "--eng" = false /\
  List.length (candidates parser "--db") = 4%nat /\
  unknown parser "--verbose" = true /\
  canonical [Opt "-i"; Arg "db1"; Opt "--eng"; Arg "mysql"] = false /\
  canonical [Opt "-i"; Arg "--"] = false /\
  canonical [Opt "-i"; Arg "-5"; Opt "--verbose"] = true.
Proof. by vm_compute. Qed.

(** [int] on some strings: blanks, a sign and underscores are taken, digits
    of other scripts count, letters and doubled underscores are refused, and
    so are 4301 digits and an information separator. *)
Example py_int_examples :
  py_int "20" = Some 20 /\ py_int " +1_000 " = Some 1000 /\ py_int "-5" = Some (-5) /\
  py_int "１２" = Some 12 /\ py_int "20GB" = None /\ py_int "1__0" = None /\
  py_int (string_of_list_ascii (repeat "1"%char 4301)) = None /\
  py_int (String (ascii_of_nat 28) "5") = None.
Proof. vm_compute. repeat split; reflexivity. Qed.

(** ** Exceptions before and at the create request *)

(** The script after its command line is parsed. *)
Lemma main_parsed w argv args :
  parse parser argv = inr args ->
  main w argv =
    (emit (Session (session_kwargs args));;
     lift (session_reply w (session_kwargs args));;
     emit (Client "rds");;
     lift (client_reply w "rds");;
     ok ← create_db_instance w args;
     (if negb ok then sys_exit 1 else mret tt);;
     ok ← wait_for_available w (args !!! "db_instance_identifier") default_timeout_minutes;
     (if negb ok then sys_exit 2 else mret tt);;
     describe_endpoint w (args !!! "db_instance_identifier");;
     mret tt).
Proof.
  intros Hp. unfold main, parse_args, argparse.parse_args. rewrite Hp. by rewrite bind_ret.
Qed.

Lemma client_inv w argv s :
  Client s ∈ trace_of (main w argv) ->
  s = "rds" /\ exists args, parse parser argv = inr args.
Proof.
  intros Hin.
  destruct (main_runs w argv); unfold trace_of, connecting, creating, waiting, described in *;
    cbn [fst] in *; invert_runs; mem Hin; injection Hin as ->; eauto.
Qed.

(** X9: an exception raised when the session is built, or when the client
    is obtained from it, leaves the script: the run ends there, with status
    1, before the password is asked for and before any request. *)
Theorem connection_error_propagates w argv e :
  (forall kw, Session kw ∈ trace_of (main w argv) -> session_reply w kw = Fails e ->
     main w argv = ([Session kw], Raises e) /\ run w argv = 1) /\
  (forall s, Client s ∈ trace_of (main w argv) -> client_reply w s = Fails e ->
     exists kw, main w argv = ([Session kw; Client s], Raises e) /\ run w argv = 1).
Proof.
  split.
  - intros kw Hs Hreply.
    destruct (session_inv w argv kw Hs) as (args & after & Hp & -> & _).
    unfold run. rewrite (main_parsed w argv args Hp), bind_emit, bind_lift, Hreply. done.
  - intros s Hc Hreply.
    destruct (client_inv w argv s Hc) as (-> & args & Hp).
    exists (session_kwargs args). unfold run.
    rewrite (main_parsed w argv args Hp) in *. rewrite bind_emit, bind_lift in *.
    destruct (session_reply w (session_kwargs args)) as [[]|e'].
    + rewrite bind_emit, bind_lift, Hreply. done.
    + unfold trace_of in Hc. cbn [fst] in Hc. by mem Hc.
Qed.

Lemma connection_error_propagates_witness :
  exists kw,
    main regionless_world [Opt "-i"; Arg "db1"] =
      ([Session kw; Client "rds"], Raises (OtherError "NoRegionError")) /\
    run regionless_world [Opt "-i"; Arg "db1"] = 1.
Proof.
  apply (proj2 (connection_error_propagates regionless_world [Opt "-i"; Arg "db1"]
                  (OtherError "NoRegionError")) "rds").
  - in_trace 1%nat.
  - reflexivity.
Defined.

(** X10: an exception raised by [getpass] leaves the script: the run ends
    at the prompt, which was reached with no usable password among the
    arguments, with status 1 and no request sent. *)
Theorem getpass_error_propagates w argv prompt e :
  Getpass prompt ∈ trace_of (main w argv) ->
  getpass_reply w prompt = Fails e ->
  exists args,
    parse parser argv = inr args /\
    truthy (args !!! "master_user_password") = false /\
    main w argv = (connecting args ++ [Getpass prompt], Raises e) /\
    run w argv = 1.
Proof.
  intros Hin Hreply. unfold run.
  destruct (main_runs w argv); unfold trace_of, outcome_of, connecting, creating, waiting,
    described in *; cbn [fst snd] in *; invert_runs; mem Hin; injection Hin as ->;
    try congruence.
  exists args. rewrite Hreply in *.
  match goal with H : Fails _ = Fails _ |- _ => injection H as -> end. done.
Qed.

Lemma getpass_error_propagates_witness :
  exists args,
    parse parser [Opt "-i"; Arg "db1"] = inr args /\
    truthy (args !!! "master_user_password") = false /\
    main unattended_world [Opt "-i"; Arg "db1"] =
      (connecting args ++ [Getpass password_prompt], Raises (OtherError "EOFError")) /\
    run unattended_world [Opt "-i"; Arg "db1"] = 1.
Proof.
  apply (getpass_error_propagates unattended_world [Opt "-i"; Arg "db1"]).
  - in_trace 2%nat.
  - reflexivity.
Defined.

(** X11: an exception of the create request that is not a [ClientError]
    is not caught: the run ends at the request, no message follows it, no
    request came before it, and the status is 1. *)
Theorem create_other_error_propagates w argv params e :
  Call "create_db_instance" params ∈ trace_of (main w argv) ->
  create_db_instance_reply w params = Fails e ->
  uncaught_by_create e ->
  exists before,
    main w argv = (before ++ [Call "create_db_instance" params], Raises e) /\
    Forall (fun x => request_event x = false) before /\
    run w argv = 1.
Proof.
  intros Hin Hreply Hun. unfold run.
  destruct (main_runs w argv); unfold trace_of, outcome_of, connecting, creating, waiting,
    described in *; cbn [fst snd] in *; invert_runs; mem Hin; injection Hin as ->;
    try congruence;
    try (match goal with H : _ = Fails (ClientError ?m) |- _ =>
           rewrite Hreply in H; injection H as ->; by destruct (Hun m) end).
  all: match goal with H : _ = Fails ?e' |- _ =>
         rewrite Hreply in H; injection H as <- end.
  - eexists [_; _; _]. cbn [app]. split; [done|]. split; [by repeat constructor|done].
  - eexists [_; _; _; _]. cbn [app]. split; [done|]. split; [by repeat constructor|done].
Qed.

Lemma create_other_error_propagates_witness :
  exists before,
    main unreachable_world [Opt "-i"; Arg "db1"] =
      (before ++ [Call "create_db_instance"
                    (build_params (parsed [Opt "-i"; Arg "db1"]) (PyStr "s3cret"))],
       Raises (OtherError "EndpointConnectionError")) /\
    Forall (fun x => request_event x = false) before /\
    run unreachable_world [Opt "-i"; Arg "db1"] = 1.
Proof.
  apply (create_other_error_propagates unreachable_world [Opt "-i"; Arg "db1"]).
  - in_trace 4%nat.
  - reflexivity.
  - by intros message.
Defined.

(** ** The requests of the waiter *)

Lemma attempts_polls w params delay retries n k :
  (k <= retries)%nat ->
  (forall j, (j < k)%nat -> status_reply w (n + j) params = Retry) ->
  status_reply w (n + k) params <> Retry \/ k = retries ->
  botocore.attempts w params delay retries n =
    (polling params delay k, ending (status_reply w (n + k) params)).
Proof.
  revert retries n. induction k as [|k IH]; intros retries n Hk Hretry Hlast.
  - rewrite attempts_unfold, bind_emit. rewrite Nat.add_0_r in *.
    destruct (status_reply w n params); try done.
    destruct Hlast as [|<-]; done.
  - destruct retries as [|retries]; [lia|].
    rewrite attempts_unfold, bind_emit.
    pose proof (Hretry 0%nat ltac:(lia)) as H0. rewrite Nat.add_0_r in H0. rewrite H0.
    rewrite bind_emit. cbn [fst snd polling].
    rewrite (IH retries (S n)).
    + by replace (S n + k)%nat with (n + S k)%nat by lia.
    + lia.
    + intros j Hj. replace (S n + j)%nat with (n + S j)%nat by lia. apply Hretry. lia.
    + replace (S n + k)%nat with (n + S k)%nat by lia. destruct Hlast; [by left|right; lia].
Qed.

Lemma wait_polls w params delay n k :
  (k <= Z.to_nat (n - 1))%nat ->
  (forall j, (j < k)%nat -> status_reply w j params = Retry) ->
  status_reply w k params <> Retry \/ k = Z.to_nat (n - 1) ->
  botocore.wait w params delay n =
    (WaiterWait params delay n :: polling params delay k, ending (status_reply w k params)).
Proof.
  intros Hk Hretry Hlast. unfold botocore.wait.
  rewrite bind_emit, (attempts_polls w params delay _ 0 k); done.
Qed.

Lemma slept_app t1 t2 : slept (t1 ++ t2) = slept t1 + slept t2.
Proof.
  induction t1 as [|e t1 IH]; [done|]. cbn [app]. unfold slept in *. cbn [foldr].
  destruct e; lia.
Qed.

Lemma polling_counts params delay k :
  status_checks (polling params delay k) = S k /\
  slept (polling params delay k) = delay * Z.of_nat k.
Proof.
  induction k as [|k [IH1 IH2]]; [split; [done|cbn; lia]|].
  unfold status_checks, slept in *. cbn [polling List.filter is_status_check List.length foldr].
  rewrite IH1, IH2. split; lia.
Qed.

(** The waiter sleeps between two status requests, and only there. *)
Lemma attempts_slept w params delay retries n :
  slept (trace_of (botocore.attempts w params delay retries n)) =
  delay * (Z.of_nat (status_checks (trace_of (botocore.attempts w params delay retries n))) - 1).
Proof.
  revert n. induction retries as [|retries IH]; intros n;
    rewrite attempts_unfold, bind_emit; unfold trace_of; cbn [fst snd];
    destruct (status_reply w n params); try (cbn; lia).
  rewrite bind_emit. cbn [fst snd].
  specialize (IH (S n)). unfold trace_of in IH.
  destruct (attempts_trace w params delay retries (S n)) as (_ & Hn & _).
  unfold trace_of in Hn.
  unfold slept, status_checks in *. cbn [foldr List.filter is_status_check List.length].
  rewrite IH. lia.
Qed.

Lemma wait_slept w params delay n tb r :
  botocore.wait w params delay n = (WaiterWait params delay n :: tb, r) ->
  slept tb = delay * (Z.of_nat (status_checks tb) - 1).
Proof.
  unfold botocore.wait. rewrite bind_emit. intros [= <- _]. apply attempts_slept.
Qed.

(** ** How the wait ends *)

(** [wait_for_available] on the outcome of the waiter. *)
Lemma wait_for_available_outcome w identifier timeout_minutes ta r :
  botocore.wait w (identified identifier) 30 (max_attempts timeout_minutes) = (ta, r) ->
  wait_for_available w identifier timeout_minutes =
    match r with
    | Returns _ => (waiting ++ ta, Returns true)
    | Raises (WaiterError text) =>
        (waiting ++ ta ++
           [Print [PyStr "Timed out waiting for DB to become available:"; PyStr text]],
         Returns false)
    | Raises (ClientError message) =>
        (waiting ++ ta ++ [Print [PyStr "Error while waiting:"; opt_str message]],
         Returns false)
    | Raises e => (waiting ++ ta, Raises e)
    | Exits code => (waiting ++ ta, Exits code)
    end.
Proof.
  intros Hw. unfold wait_for_available.
  fold (identified identifier) (max_attempts timeout_minutes).
  rewrite !bind_emit, Hw. unfold try_except.
  destruct r as [[]|[]|]; run_simpl; done.
Qed.

(** X12: when the instance is reported available at status request [k],
    counted from 0 and within the attempts allowed, after [k] answers that it
    is not ready, [wait_for_available] returns [True] after [k + 1] status
    requests and [k] pauses of 30 seconds, and prints nothing more. *)
Theorem available_in_time w identifier timeout_minutes k :
  1 <= timeout_minutes <= 2 ^ 52 ->
  Z.of_nat k < timeout_minutes * 60 / 30 ->
  (forall j, (j < k)%nat -> status_reply w j (identified identifier) = Retry) ->
  status_reply w k (identified identifier) = Success ->
  wait_for_available w identifier timeout_minutes =
    (waiting ++
       WaiterWait (identified identifier) 30 (timeout_minutes * 60 / 30) ::
       polling (identified identifier) 30 k,
     Returns true) /\
  slept (trace_of (wait_for_available w identifier timeout_minutes)) = 30 * Z.of_nat k.
Proof.
  intros [Hlow _] Hk Hretry Hlast.
  destruct (max_attempts_positive timeout_minutes Hlow) as [Hdiv Htwice].
  rewrite <- Hdiv in *.
  assert (wait_for_available w identifier timeout_minutes =
            (waiting ++
               WaiterWait (identified identifier) 30 (max_attempts timeout_minutes) ::
               polling (identified identifier) 30 k, Returns true)) as ->.
  { rewrite (wait_for_available_outcome w identifier timeout_minutes _ _
               (wait_polls w (identified identifier) 30 (max_attempts timeout_minutes) k ltac:(lia) Hretry ltac:(left; by rewrite Hlast))).
    by rewrite Hlast. }
  split; [done|]. unfold trace_of. cbn [fst].
  rewrite slept_app. change (slept (WaiterWait ?p ?d ?n :: ?t)) with (slept t).
  rewrite (proj2 (polling_counts _ _ _)). done.
Qed.

Lemma available_in_time_witness :
  wait_for_available (good_world 2) (PyStr "db1") 30 =
    (waiting ++ WaiterWait (identified (PyStr "db1")) 30 (30 * 60 / 30) ::
       polling (identified (PyStr "db1")) 30 2,
     Returns true) /\
  slept (trace_of (wait_for_available (good_world 2) (PyStr "db1") 30)) = 30 * Z.of_nat 2.
Proof.
  apply (available_in_time (good_world 2) (PyStr "db1") 30 2).
  - lia.
  - reflexivity.
  - intros [|[|j]] Hj; [reflexivity|reflexivity|lia].
  - reflexivity.
Defined.

(** X13: when the instance is reported in a failure state at status
    request [k], [wait_for_available] stops there and returns [False], and
    the message it prints is the one of a timeout, followed by the text of
    the waiter's error for the failure state, whatever that text is. *)
Theorem failure_state_reported_as_timeout w identifier timeout_minutes k text :
  1 <= timeout_minutes <= 2 ^ 52 ->
  Z.of_nat k < timeout_minutes * 60 / 30 ->
  (forall j, (j < k)%nat -> status_reply w j (identified identifier) = Retry) ->
  status_reply w k (identified identifier) = Failure text ->
  wait_for_available w identifier timeout_minutes =
    (waiting ++
       WaiterWait (identified identifier) 30 (timeout_minutes * 60 / 30) ::
       polling (identified identifier) 30 k ++
       [Print [PyStr "Timed out waiting for DB to become available:"; PyStr text]],
     Returns false).
Proof.
  intros [Hlow _] Hk Hretry Hlast.
  destruct (max_attempts_positive timeout_minutes Hlow) as [Hdiv Htwice].
  rewrite <- Hdiv in *.
  rewrite (wait_for_available_outcome w identifier timeout_minutes _ _
             (wait_polls w (identified identifier) 30 (max_attempts timeout_minutes) k ltac:(lia) Hretry ltac:(left; by rewrite Hlast))).
  by rewrite Hlast.
Qed.

Lemma failure_state_reported_as_timeout_witness :
  wait_for_available failing_world (PyStr "db1") 30 =
    (waiting ++ WaiterWait (identified (PyStr "db1")) 30 (30 * 60 / 30) ::
       polling (identified (PyStr "db1")) 30 1 ++
       [Print [PyStr "Timed out waiting for DB to become available:";
               PyStr failed_state_text]],
     Returns false).
Proof.
  apply (failure_state_reported_as_timeout failing_world (PyStr "db1") 30 1
           failed_state_text).
  - lia.
  - reflexivity.
  - intros [|j] Hj; [reflexivity|lia].
  - reflexivity.
Defined.

(** X14: when every status request allowed finds the instance not ready,
    [wait_for_available] makes [timeout_minutes * 60 / 30] status requests,
    sleeps 30 seconds short of the timeout in all, prints the timeout message
    with the waiter's text, and returns [False]. *)
Theorem never_available_times_out w identifier timeout_minutes :
  1 <= timeout_minutes <= 2 ^ 52 ->
  (forall j, Z.of_nat j < timeout_minutes * 60 / 30 ->
     status_reply w j (identified identifier) = Retry) ->
  wait_for_available w identifier timeout_minutes =
    (waiting ++
       WaiterWait (identified identifier) 30 (timeout_minutes * 60 / 30) ::
       polling (identified identifier) 30 (Z.to_nat (timeout_minutes * 60 / 30 - 1)) ++
       [Print [PyStr "Timed out waiting for DB to become available:";
               PyStr botocore.max_attempts_exceeded]],
     Returns false) /\
  Z.of_nat (status_checks (trace_of (wait_for_available w identifier timeout_minutes))) =
    timeout_minutes * 60 / 30 /\
  slept (trace_of (wait_for_available w identifier timeout_minutes)) =
    timeout_minutes * 60 - 30.
Proof.
  intros [Hlow _] Hretry.
  destruct (max_attempts_positive timeout_minutes Hlow) as [Hdiv Htwice].
  rewrite <- Hdiv in *.
  set (k := Z.to_nat (max_attempts timeout_minutes - 1)).
  assert (status_reply w k (identified identifier) = Retry) as Hlast
    by (apply Hretry; lia).
  assert (wait_for_available w identifier timeout_minutes =
            (waiting ++
               WaiterWait (identified identifier) 30 (max_attempts timeout_minutes) ::
               polling (identified identifier) 30 k ++
               [Print [PyStr "Timed out waiting for DB to become available:";
                       PyStr botocore.max_attempts_exceeded]], Returns false)) as ->.
  { rewrite (wait_for_available_outcome w identifier timeout_minutes _ _
               (wait_polls w (identified identifier) 30 (max_attempts timeout_minutes) k ltac:(lia) ltac:(intros j Hj; apply Hretry; lia)
                  ltac:(by right))).
    by rewrite Hlast. }
  split; [done|]. unfold trace_of. cbn [fst].
  destruct (polling_counts (identified identifier) 30 k) as [Hc Hs].
  split.
  - unfold status_checks in *. rewrite !List.filter_app, !List.length_app.
    cbn [List.filter is_status_check List.length waiting]. rewrite List.filter_app, List.length_app, Hc.
    cbn. lia.
  - rewrite slept_app. change (slept (WaiterWait ?p ?d ?n :: ?t)) with (slept t).
    rewrite slept_app, Hs. cbn. lia.
Qed.

Lemma never_available_times_out_witness :
  Z.of_nat (status_checks (trace_of (wait_for_available stuck_world (PyStr "db1") 30))) =
    30 * 60 / 30 /\
  slept (trace_of (wait_for_available stuck_world (PyStr "db1") 30)) = 30 * 60 - 30.
Proof.
  apply (never_available_times_out stuck_world (PyStr "db1") 30).
  - lia.
  - reflexivity.
Defined.

(** ** A wait that fails in a run *)

(** The waiter of a run and how it ended. *)
Ltac waiter_outcome Hin Hout :=
  mem Hin; injection Hin as -> -> ->;
  match goal with H : botocore.wait _ _ _ _ = _ |- _ =>
    rewrite H in *; clear H end;
  unfold outcome_of, trace_of in *; cbn [fst snd] in *;
  try discriminate Hout; injection Hout as <-.

Ltac accepted :=
  eexists _, _; split; [|eassumption]; elem.

(** X15: when the waiter of a run ends with a [WaiterError] or a
    [ClientError], the script prints one message right after the waiter's
    requests and ends with status 2: the timeout message with the text of the
    [WaiterError], or the error message with the provider's message of the
    [ClientError].  The create request before it was accepted, and nothing
    follows. *)
Theorem wait_failure_reported w argv params delay n e :
  WaiterWait params delay n ∈ trace_of (main w argv) ->
  outcome_of (botocore.wait w params delay n) = Raises e ->
  handled_by_wait e ->
  exists before message,
    main w argv =
      (before ++ trace_of (botocore.wait w params delay n) ++ [Print message], Exits 2) /\
    create_succeeded w before /\
    (forall text, e = WaiterError text ->
       message = [PyStr "Timed out waiting for DB to become available:"; PyStr text]) /\
    (forall m, e = ClientError m -> message = [PyStr "Error while waiting:"; opt_str m]) /\
    operations (trace_of (main w argv)) = ["create_db_instance"; "get_waiter"; "wait"] /\
    run w argv = 2.
Proof.
  intros Hin Hout Hh. unfold run.
  destruct (main_runs w argv); unfold connecting, creating, waiting, described in *;
    unfold trace_of in Hin; cbn [fst] in Hin; invert_runs; waiter_outcome Hin Hout.
  all: try (match goal with H : uncaught_by_wait _ |- _ => destruct H as [Hu1 Hu2] end;
            destruct Hh as [[? ->]|[? ->]];
            [by destruct (Hu1 _ eq_refl)|by destruct (Hu2 _ eq_refl)]).
  all: first [ eexists [_; _; _; _; _; _; _], _; cbn [app]; split; [reflexivity|]
             | eexists [_; _; _; _; _; _; _; _], _; cbn [app]; split; [reflexivity|] ].
  all: split; [accepted|]; split; [by try intros ? [= ->]|];
    split; [by try intros ? [= ->]|]; split; [operations_simpl; done|done].
Qed.

Lemma wait_failure_reported_witness :
  exists before message,
    main failing_world [Opt "-i"; Arg "db1"] =
      (before ++
         trace_of (botocore.wait failing_world (identified (PyStr "db1")) 30 60) ++
         [Print message], Exits 2) /\
    message = [PyStr "Timed out waiting for DB to become available:";
               PyStr failed_state_text].
Proof.
  destruct (wait_failure_reported failing_world [Opt "-i"; Arg "db1"]
              (identified (PyStr "db1")) 30 60 (WaiterError failed_state_text))
    as (before & message & Hrun & _ & Hm & _).
  - in_trace 8%nat.
  - reflexivity.
  - left. by eexists.
  - exists before, message. split; [exact Hrun|]. by apply Hm.
Defined.

(** X16: an exception of the waiter that is neither a [WaiterError] nor a
    [ClientError] is not caught: the run ends with the waiter's last request,
    nothing is printed after it, no describe request is made, and the status
    is 1. *)
Theorem wait_other_error_propagates w argv params delay n e :
  WaiterWait params delay n ∈ trace_of (main w argv) ->
  outcome_of (botocore.wait w params delay n) = Raises e ->
  uncaught_by_wait e ->
  exists before,
    main w argv = (before ++ trace_of (botocore.wait w params delay n), Raises e) /\
    create_succeeded w before /\
    operations (trace_of (main w argv)) = ["create_db_instance"; "get_waiter"; "wait"] /\
    run w argv = 1.
Proof.
  intros Hin Hout [Hu1 Hu2]. unfold run.
  destruct (main_runs w argv); unfold connecting, creating, waiting, described in *;
    unfold trace_of in Hin; cbn [fst] in Hin; invert_runs; waiter_outcome Hin Hout.
  all: try by destruct (Hu1 _ eq_refl).
  all: try by destruct (Hu2 _ eq_refl).
  all: first [ eexists [_; _; _; _; _; _; _]; cbn [app]; split; [reflexivity|]
             | eexists [_; _; _; _; _; _; _; _]; cbn [app]; split; [reflexivity|] ].
  all: split; [accepted|]; split; [operations_simpl; done|done].
Qed.

Lemma wait_other_error_propagates_witness :
  exists before,
    main disconnected_world [Opt "-i"; Arg "db1"] =
      (before ++ trace_of (botocore.wait disconnected_world (identified (PyStr "db1")) 30 60),
       Raises (OtherError "EndpointConnectionError")) /\
    create_succeeded disconnected_world before /\
    operations (trace_of (main disconnected_world [Opt "-i"; Arg "db1"])) =
      ["create_db_instance"; "get_waiter"; "wait"] /\
    run disconnected_world [Opt "-i"; Arg "db1"] = 1.
Proof.
  apply (wait_other_error_propagates disconnected_world [Opt "-i"; Arg "db1"]
           (identified (PyStr "db1")) 30 60 (OtherError "EndpointConnectionError")).
  - in_trace 8%nat.
  - reflexivity.
  - split; by intros ?.
Defined.

(** ** The describe request, the identifier and the pauses *)

(** X17: a describe request that is answered with an empty list of
    instances, or that raises an exception other than a [ClientError], ends
    the run with an uncaught exception ([IndexError] for the empty list) and
    status 1, although the create request was accepted and the wait
    succeeded; nothing is printed after the request. *)
Theorem describe_failure_propagates w argv params :
  Call "describe_db_instances" params ∈ trace_of (main w argv) ->
  exists before,
    create_succeeded w before /\ wait_succeeded w before /\
    (forall resp,
       describe_db_instances_reply w params = Ok resp -> DBInstances resp = [] ->
       main w argv =
         (before ++ [Call "describe_db_instances" params], Raises (OtherError "IndexError")) /\
       run w argv = 1) /\
    (forall e,
       describe_db_instances_reply w params = Fails e -> uncaught_by_create e ->
       main w argv = (before ++ [Call "describe_db_instances" params], Raises e) /\
       run w argv = 1).
Proof.
  intros Hin.
  destruct (describe_call_inv w argv params Hin)
    as (args & tc & tw & td & r & Hp & -> & Hc & Hw & Hd & Hrun).
  destruct (describe_reached w args tc tw Hc Hw) as [Hacc Hsucc].
  exists (connecting args ++ tc ++ tw). split; [done|]. split; [done|].
  unfold run. rewrite Hrun. unfold described in *. split.
  - intros resp Hreply Hnone. inversion Hd; subst; try congruence; done.
  - intros e Hreply Hun. inversion Hd; subst; try congruence; try clash.
    match goal with H : _ = Fails ?e' |- _ => rewrite Hreply in H; injection H as <- end.
    done.
Qed.

Lemma describe_failure_propagates_witness :
  exists before,
    create_succeeded vanished_world before /\ wait_succeeded vanished_world before /\
    main vanished_world [Opt "-i"; Arg "db1"] =
      (before ++ [Call "describe_db_instances" (identified (PyStr "db1"))],
       Raises (OtherError "IndexError")) /\
    run vanished_world [Opt "-i"; Arg "db1"] = 1.
Proof.
  destruct (describe_failure_propagates vanished_world [Opt "-i"; Arg "db1"]
              (identified (PyStr "db1")))
    as (before & Hc & Hw & Hempty & _).
  - in_trace 10%nat.
  - exists before. split; [exact Hc|]. split; [exact Hw|].
    apply (Hempty {| DBInstances := [] |}); reflexivity.
Defined.

(** X18: one identifier, the string parsed from the command line, is used
    throughout a run: it is the [DBInstanceIdentifier] of the create request,
    the one printed before it, the one the waiter is started with and asks
    the status of, and the one of the describe request. *)
Theorem one_identifier w argv args :
  parse parser argv = inr args ->
  exists s,
    args !!! "db_instance_identifier" = PyStr s /\
    (forall params, Call "create_db_instance" params ∈ trace_of (main w argv) ->
       params !! "DBInstanceIdentifier" = Some (PyStr s)) /\
    (forall l, Print (PyStr "Creating DB instance" :: l) ∈ trace_of (main w argv) ->
       l = [PyStr s]) /\
    (forall p d n, WaiterWait p d n ∈ trace_of (main w argv) -> p = identified (PyStr s)) /\
    (forall p, StatusCheck p ∈ trace_of (main w argv) -> p = identified (PyStr s)) /\
    (forall params, Call "describe_db_instances" params ∈ trace_of (main w argv) ->
       params = identified (PyStr s)).
Proof.
  intros Hp. destruct (parse_identifier_value argv args Hp) as [s Hs].
  apply lookup_total_correct in Hs. exists s. split; [done|].
  destruct (main_runs w argv); try congruence;
    once (match goal with H : parse parser argv = inr ?a |- _ =>
      rewrite Hp in H; injection H as <- end);
    unfold trace_of, connecting, creating, waiting, described, identified in *;
    cbn [fst] in *; invert_runs;
    unfold creating, waiting, described, identified in *; try rewrite Hs in *;
    (split; [intros params Hin; mem Hin; injection Hin as ->;
             by rewrite (proj1 (proj2 (build_params_lookup args _))), Hs|]);
    (split; [intros l Hin; mem Hin; by injection Hin as ->|]);
    (split; [intros p d n Hin; mem Hin; by injection Hin as -> _ _|]);
    (split; [intros p Hin; mem Hin; by injection Hin as ->|]);
    intros params Hin; mem Hin; by injection Hin as ->.
Qed.

Lemma one_identifier_witness :
  exists s,
    parsed [Opt "-i"; Arg "db1"] !!! "db_instance_identifier" = PyStr s /\
    (forall p, StatusCheck p ∈ trace_of (main (good_world 2) [Opt "-i"; Arg "db1"]) ->
       p = identified (PyStr s)).
Proof.
  destruct (one_identifier (good_world 2) [Opt "-i"; Arg "db1"]
              (parsed [Opt "-i"; Arg "db1"]) eq_refl)
    as (s & Hs & _ & _ & _ & Hchk & _).
  exists s. split; [exact Hs|exact Hchk].
Defined.

Ltac slept_simpl :=
  repeat first
    [ rewrite slept_app
    | progress change (slept []) with 0
    | progress change (slept (Print ?l :: ?t)) with (slept t)
    | progress change (slept (Session ?l :: ?t)) with (slept t)
    | progress change (slept (Client ?l :: ?t)) with (slept t)
    | progress change (slept (Getpass ?l :: ?t)) with (slept t)
    | progress change (slept (Call ?m ?l :: ?t)) with (slept t)
    | progress change (slept (GetWaiter ?l :: ?t)) with (slept t)
    | progress change (slept (PrintHelp :: ?t)) with (slept t)
    | progress change (slept (PrintUsageError ?e :: ?t)) with (slept t)
    | progress change (slept (WaiterWait ?p ?d ?n :: ?t)) with (slept t) ].

(** X19: in every run the script sleeps 1770 seconds at most, half a
    minute short of the 30 minutes of the timeout: 30 seconds for each status
    request but the first. *)
Theorem sleep_budget w argv :
  let t := trace_of (main w argv) in
  0 <= slept t <= 1770 /\
  (status_checks t = 0%nat -> slept t = 0) /\
  ((1 <= status_checks t)%nat -> slept t = 30 * (Z.of_nat (status_checks t) - 1)).
Proof.
  intros t. subst t.
  destruct (main_runs w argv); unfold trace_of, connecting, creating, waiting, described in *;
    cbn [fst] in *; invert_runs;
    try change (max_attempts default_timeout_minutes) with 60 in *;
    try (match goal with H : botocore.wait _ _ _ _ = _ |- _ =>
           apply wait_slept in H end);
    unfold creating, waiting, described in *;
    slept_simpl; checks_simpl; lia.
Qed.

(** ** What a run tells *)

Ltac waited :=
  match goal with H : botocore.wait ?w ?p ?d ?n = _ |- _ =>
    exists p, d, n; split; [elem|by rewrite H]
  end.

Ltac wait_gave_up :=
  match goal with H : botocore.wait ?w ?p ?d ?n = (_, Raises ?e) |- _ =>
    exists p, d, n, e; split; [elem|]; split; [by rewrite H|];
    first [left; by eexists | right; by eexists]
  end.

Ltac refused :=
  eexists _, _; split; [|eassumption]; elem.

(** X20: what the exit status tells.  Status 0: the help was printed, or
    the script ran to its end after the four operations of the workflow, the
    create request accepted and the wait successful (the describe request
    may still have been refused).  Status 2: a usage error, or a wait that
    failed after an accepted create request.  Status 1: the create request
    was refused with a client error, or an exception left the script. *)
Theorem exit_status_meaning w argv :
  let t := trace_of (main w argv) in
  (run w argv = 0 ->
     help_exit (main w argv) \/
     (outcome_of (main w argv) = Returns tt /\ operations t = workflow /\
      create_succeeded w t /\ wait_succeeded w t)) /\
  (run w argv = 2 ->
     usage_exit (main w argv) \/
     (operations t = ["create_db_instance"; "get_waiter"; "wait"] /\
      create_succeeded w t /\ wait_failed w t)) /\
  (run w argv = 1 ->
     create_failed w t \/ exists e, outcome_of (main w argv) = Raises e).
Proof.
  intros t. subst t. unfold run, help_exit, usage_exit.
  destruct (main_runs w argv); unfold trace_of, outcome_of, connecting, creating, waiting,
    described in *; cbn [fst snd exit_status] in *; invert_runs;
    unfold creating, waiting, described in *; cbn [app];
    (split; [|split]); intros Hr; try discriminate Hr.
  all: try (left; done).
  all: try (left; by eexists).
  all: try (right; by eexists).
  all: try (left; refused).
  all: right.
  all: try (split; [done|]).
  all: (split; [operations_simpl; done|]).
  all: (split; [accepted|]).
  all: first [waited | wait_gave_up].
Qed.

Lemma exit_status_meaning_witness :
  help_exit (main (good_world 2) [Opt "-i"; Arg "db1"]) \/
  (outcome_of (main (good_world 2) [Opt "-i"; Arg "db1"]) = Returns tt /\
   operations (trace_of (main (good_world 2) [Opt "-i"; Arg "db1"])) = workflow /\
   create_succeeded (good_world 2) (trace_of (main (good_world 2) [Opt "-i"; Arg "db1"])) /\
   wait_succeeded (good_world 2) (trace_of (main (good_world 2) [Opt "-i"; Arg "db1"]))).
Proof.
  apply (proj1 (exit_status_meaning (good_world 2) [Opt "-i"; Arg "db1"])).
  reflexivity.
Defined.

Ltac elem_app :=
  solve [repeat first [ apply list_elem_of_here | apply list_elem_of_further
                      | apply elem_of_app; right ]].

(** X21: the script asks for the password at most once in a run, with the
    prompt of [create_db_instance], only when the parsed arguments hold no
    usable password, and right after the client is obtained: before any
    request. *)
Theorem password_asked_at_most_once w argv :
  let t := trace_of (main w argv) in
  (List.length (prompts t) <= 1)%nat /\
  (forall s, Getpass s ∈ t ->
     s = password_prompt /\
     exists args after,
       parse parser argv = inr args /\
       truthy (args !!! "master_user_password") = false /\
       t = connecting args ++ Getpass s :: after /\
       prompts after = []).
Proof.
  intros t. subst t.
  destruct (main_runs w argv); unfold trace_of, connecting, creating, waiting, described in *;
    cbn [fst] in *; invert_runs; unfold creating, waiting, described in *;
    (split; [prompts_simpl; cbn [List.length]; lia|]);
    intros ask Hin; mem Hin; injection Hin as ->; (split; [done|]);
    eexists args, _; (split; [done|]); (split; [done|]);
    (split; [cbn [app]; reflexivity|]); prompts_simpl; done.
Qed.

Lemma password_asked_at_most_once_witness :
  exists args after,
    parse parser [Opt "-i"; Arg "db1"] = inr args /\
    truthy (args !!! "master_user_password") = false /\
    trace_of (main (good_world 0) [Opt "-i"; Arg "db1"]) =
      connecting args ++ Getpass password_prompt :: after /\
    prompts after = [].
Proof.
  apply (proj2 (password_asked_at_most_once (good_world 0) [Opt "-i"; Arg "db1"])
           password_prompt).
  in_trace 2%nat.
Defined.

(** The line that announces the instance is printed after a describe request
    that returned an instance. *)
Lemma announced_described w argv :
  Print [PyStr "DB instance available."] ∈ trace_of (main w argv) ->
  exists params resp inst rest,
    Call "describe_db_instances" params ∈ trace_of (main w argv) /\
    describe_db_instances_reply w params = Ok resp /\
    DBInstances resp = inst :: rest.
Proof.
  intros Hin.
  destruct (main_runs w argv); unfold trace_of, connecting, creating, waiting, described in *;
    cbn [fst] in *; invert_runs; unfold creating, waiting, described in *;
    mem Hin; eexists _, _, _, _; (split; [cbn [app]; elem_app|]); split; eassumption.
Qed.

(** X22: the line [DB instance available.] is printed only after a
    describe request that returned an instance, which is only made after an
    accepted create request and a successful wait; the address and the port
    follow it and the script ends with status 0. *)
Theorem availability_announced w argv :
  Print [PyStr "DB instance available."] ∈ trace_of (main w argv) ->
  exists params resp inst rest before,
    describe_db_instances_reply w params = Ok resp /\
    DBInstances resp = inst :: rest /\
    main w argv =
      (before ++ [Call "describe_db_instances" params;
                  Print [PyStr "DB instance available."];
                  Print [PyStr "Endpoint:"; address_of inst];
                  Print [PyStr "Port:"; port_of inst]],
       Returns tt) /\
    create_succeeded w before /\
    wait_succeeded w before /\
    run w argv = 0.
Proof.
  intros (params & resp & inst & rest & Hin & Hreply & Hinst)%announced_described.
  destruct (describe_call_inv w argv params Hin)
    as (args & tc & tw & td & r & Hp & -> & Hc & Hw & Hd & Hrun).
  destruct (describe_reached w args tc tw Hc Hw) as [Hacc Hsucc].
  exists (identified (args !!! "db_instance_identifier")), resp, inst, rest,
         (connecting args ++ tc ++ tw).
  split; [done|]. split; [done|]. unfold run. rewrite Hrun.
  inversion Hd; subst; try congruence.
  match goal with H : _ = Ok ?resp0 |- _ => rewrite Hreply in H; injection H as <- end.
  match goal with H : DBInstances resp = _ |- _ => rewrite Hinst in H; injection H as <- <- end.
  done.
Qed.

Lemma availability_announced_witness :
  exists params resp inst rest before,
    describe_db_instances_reply (good_world 2) params = Ok resp /\
    DBInstances resp = inst :: rest /\
    main (good_world 2) [Opt "-i"; Arg "db1"] =
      (before ++ [Call "describe_db_instances" params;
                  Print [PyStr "DB instance available."];
                  Print [PyStr "Endpoint:"; address_of inst];
                  Print [PyStr "Port:"; port_of inst]],
       Returns tt) /\
    create_succeeded (good_world 2) before /\
    wait_succeeded (good_world 2) before /\
    run (good_world 2) [Opt "-i"; Arg "db1"] = 0.
Proof.
  apply (availability_announced (good_world 2) [Opt "-i"; Arg "db1"]).
  in_trace 15%nat.
Defined.
